(** * X-RAY: the tracing engine and its dashboard store

    A shallow embedding of [xray_sdk/xray.py] (XRayStep, XRay), of the
    JSON endpoints of [dashboard/server.py] (DashboardHandler) and of the
    frame of the demo pipeline ([demo_app/competitor_selection.py]),
    followed by the properties of the engine that the specification states.

    Conventions.
    - Python objects that the engine only passes around are values of
      [pyval]; what it stores or writes is a [json] value.
    - A Python dict is an association list in insertion order; assigning to
      an existing key replaces the value in place ([dict_set]).
    - Exceptions are explicit: fallible code returns a [result], the tracer's
      methods return the new state and an [outcome]. An exception is an
      instance of [Exception] or not, which is what [except Exception] asks.
    - A string is the sequence of its characters, one [ascii] for each code
      point: the model covers text with code points below 256, on which
      [len] and slices count what they count in Python.
    - The clock, [uuid.uuid4] and the file system are the environment: their
      answers are read from oracles, numbered by the accesses made so far.
    - Floating point is kept abstract ([FloatOps]): the engine only adds,
      subtracts, scales and rounds clock readings. *)

From Stdlib Require Import ZArith String Ascii List Sorted.
From stdpp Require Import gmap strings list fin_maps pretty.

Open Scope string_scope.
Set Warnings "-register-all".

(** ** Exceptions *)

(** An exception in flight, with the name of its class and its message.
    [Exn] is an instance of [Exception]; [BaseExn] is one of the others,
    which [except Exception] does not catch: [KeyboardInterrupt],
    [SystemExit], [GeneratorExit], and the instances of a class that a
    program derives from [BaseException] directly. *)
Inductive exn :=
| Exn (cls msg : string)
| BaseExn (cls msg : string).

Definition exn_class (e : exn) : string :=
  match e with
  | Exn cls _ | BaseExn cls _ => cls
  end.

Definition exn_msg (e : exn) : string :=
  match e with
  | Exn _ msg | BaseExn _ msg => msg
  end.

(** [isinstance(e, Exception)] *)
Definition is_Exception (e : exn) : bool :=
  match e with
  | Exn _ _ => true
  | BaseExn _ _ => false
  end.

(** [str(e)] of an exception built from one message. *)
Definition exn_str (e : exn) : string := exn_msg e.

(** What Python raises on [None.attr]. *)
Definition AttributeError (attr : string) : exn :=
  Exn "AttributeError" ("'NoneType' object has no attribute '" +:+ attr +:+ "'").

Definition KeyError (key : string) : exn := Exn "KeyError" ("'" +:+ key +:+ "'").

(** What a call raises for which the interpreter's stack has no room. *)
Definition RecursionError : exn := Exn "RecursionError" "maximum recursion depth exceeded".

Inductive result (A : Type) :=
| Ok (a : A)
| Err (e : exn).
Arguments Ok {A} a.
Arguments Err {A} e.

Definition rbind {A B} (r : result A) (k : A -> result B) : result B :=
  match r with
  | Ok a => k a
  | Err e => Err e
  end.

Inductive outcome (A : Type) :=
| Returned (a : A)
| Raised (e : exn).
Arguments Returned {A} a.
Arguments Raised {A} e.


(** ** Dicts *)

Fixpoint dict_get {V} (k : string) (d : list (string * V)) : option V :=
  match d with
  | [] => None
  | (k', v) :: r => if String.eqb k k' then Some v else dict_get k r
  end.

(** [d[k] = v] *)
Fixpoint dict_set {V} (k : string) (v : V) (d : list (string * V)) : list (string * V) :=
  match d with
  | [] => [(k, v)]
  | (k', v') :: r => if String.eqb k k' then (k', v) :: r else (k', v') :: dict_set k v r
  end.

(** [d.get(k, default)] *)
Definition dict_get_default {V} (k : string) (default : V) (d : list (string * V)) : V :=
  match dict_get k d with
  | Some v => v
  | None => default
  end.

(** ** Numbers *)

Class FloatOps := {
  float : Type;
  float_of_int : Z -> float;
  fadd : float -> float -> float;
  fsub : float -> float -> float;
  fmul : float -> float -> float;
  (** [round(x, 2)] on a float *)
  round2 : float -> float;
  (** [int(x)] *)
  float_trunc : float -> Z;
  (** [str(x)] *)
  float_str : float -> string;
}.

Section Values.
Context {F : FloatOps}.

(** A Python number is an [int] or a [float]; arithmetic between the two
    converts the [int]. *)
Inductive pynum :=
| NInt (z : Z)
| NFloat (f : float).

Definition num_add (a b : pynum) : pynum :=
  match a, b with
  | NInt x, NInt y => NInt (x + y)
  | NInt x, NFloat g => NFloat (fadd (float_of_int x) g)
  | NFloat f, NInt y => NFloat (fadd f (float_of_int y))
  | NFloat f, NFloat g => NFloat (fadd f g)
  end.

(** [round(n, 2)]: an [int] is returned as it is. *)
Definition num_round2 (n : pynum) : pynum :=
  match n with
  | NInt x => NInt x
  | NFloat f => NFloat (round2 f)
  end.

(** [sum(xs)]: starts from the [int] 0 and adds from the left. *)
Definition py_sum (xs : list pynum) : pynum := fold_left num_add xs (NInt 0).

Definition num_str (n : pynum) : string :=
  match n with
  | NInt x => pretty x
  | NFloat f => float_str f
  end.

(** ** JSON values and Python values *)

Inductive json :=
| JNull
| JBool (b : bool)
| JNum (n : pynum)
| JStr (s : string)
| JList (l : list json)
| JDict (d : list (string * json)).

Definition jdict := list (string * json).

(** Dict keys: the hashable values. For any hashable object that is not a
    scalar (an instance, a tuple, a frozenset) only [str(k)] is ever asked
    of it, so [KObj] records its class and what [str] answers: a string, or
    the exception its [__str__] raises. *)
Inductive pykey :=
| KNone
| KBool (b : bool)
| KNum (n : pynum)
| KStr (s : string)
| KObj (cls : string) (str_result : result string).

(** Values reaching the engine as arguments or return values. [PObj] is any
    object outside the built-in scalars and containers, with its class name
    and the outcome of [str(value)]. *)
Inductive pyval :=
| PNone
| PBool (b : bool)
| PNum (n : pynum)
| PStr (s : string)
| PList (l : list pyval)
| PTuple (l : list pyval)
| PDict (d : list (pykey * pyval))
| PObj (cls : string) (str_result : result string).

(** [type(v).__name__] *)
Definition class_name (v : pyval) : string :=
  match v with
  | PNone => "NoneType"
  | PBool _ => "bool"
  | PNum (NInt _) => "int"
  | PNum (NFloat _) => "float"
  | PStr _ => "str"
  | PList _ => "list"
  | PTuple _ => "tuple"
  | PDict _ => "dict"
  | PObj cls _ => cls
  end.

Definition bool_str (b : bool) : string := if b then "True" else "False".

(** [str(k)] for a dict key *)
Definition key_str (k : pykey) : result string :=
  match k with
  | KNone => Ok "None"
  | KBool b => Ok (bool_str b)
  | KNum n => Ok (num_str n)
  | KStr s => Ok s
  | KObj _ r => r
  end.

(** ** ValueSanitizer: [XRay._make_json_safe] *)

(** [s[:n]] *)
Definition str_take (n : nat) (s : string) : string := substring 0 n s.

(** The list comprehension: the items from left to right, the first
    exception ends it. *)
Definition list_comprehension {A B} (f : A -> result B) : list A -> result (list B) :=
  fix items l :=
    match l with
    | [] => Ok []
    | item :: rest =>
        rbind (f item) (fun j =>
        rbind (items rest) (fun js => Ok (j :: js)))
    end.

(** The dict comprehension: for each item the key expression, then the
    value expression, then the assignment into the dict being built. *)
Definition dict_comprehension {K A} (key : K -> result string) (f : A -> result json)
    : list (K * A) -> jdict -> result jdict :=
  fix items d acc :=
    match d with
    | [] => Ok acc
    | (k, v) :: rest =>
        rbind (key k) (fun ks =>
        rbind (f v) (fun jv =>
        items rest (dict_set ks jv acc)))
    end.

(** The values of [pyval] are finite trees, and [_make_json_safe] is the
    function on a stack that has room for the value at hand: one call
    inside the other for every level of nesting. What it does when the room
    runs out is [_make_json_safe_within] below. *)
Fixpoint _make_json_safe (value : pyval) : result json :=
  match value with
  | PNone => Ok JNull
  | PStr s => Ok (JStr s)
  | PNum n => Ok (JNum n)
  | PBool b => Ok (JBool b)
  | PList l | PTuple l =>
      rbind (list_comprehension _make_json_safe l) (fun js => Ok (JList js))
  | PDict d =>
      rbind (dict_comprehension key_str _make_json_safe d []) (fun jd => Ok (JDict jd))
  | PObj cls r =>
      match r with
      | Ok s => Ok (JStr (str_take 150 s))
      | Err _ => Ok (JStr ("Object of type " +:+ cls))
      end
  end.

(** Whether [str] answers for every dict key inside a value. *)
Fixpoint keys_render (value : pyval) : bool :=
  match value with
  | PList l | PTuple l => forallb keys_render l
  | PDict d =>
      forallb (fun kv : pykey * pyval =>
                 match key_str (fst kv) with
                 | Ok _ => keys_render (snd kv)
                 | Err _ => false
                 end) d
  | _ => true
  end.

(** [_make_json_safe] on a stack with room for [depth] more calls of it,
    one inside the other: every item of a list, a tuple or a dict is
    sanitized by a call one level further down, and a call for which no
    room is left raises RecursionError. In a dict the key is rendered
    before the call for its value. *)
Fixpoint _make_json_safe_within (depth : nat) (value : pyval) {struct value} : result json :=
  match value with
  | PNone => Ok JNull
  | PStr s => Ok (JStr s)
  | PNum n => Ok (JNum n)
  | PBool b => Ok (JBool b)
  | PList l | PTuple l =>
      rbind (list_comprehension
               (fun item => match depth with
                            | O => Err RecursionError
                            | S depth => _make_json_safe_within depth item
                            end) l)
            (fun js => Ok (JList js))
  | PDict d =>
      rbind (dict_comprehension key_str
               (fun item => match depth with
                            | O => Err RecursionError
                            | S depth => _make_json_safe_within depth item
                            end) d [])
            (fun jd => Ok (JDict jd))
  | PObj cls r =>
      match r with
      | Ok s => Ok (JStr (str_take 150 s))
      | Err _ => Ok (JStr ("Object of type " +:+ cls))
      end
  end.

(** How many calls of the sanitizer, one inside the other, a value needs
    below the first: none for a scalar, an object and an empty container,
    one more than its deepest item for any other container. A list or dict
    that contains itself would need more than any number, and is no value
    of [pyval]. *)
Fixpoint nesting (value : pyval) : nat :=
  match value with
  | PList l | PTuple l =>
      match l with
      | [] => 0
      | _ => S (list_max (map nesting l))
      end
  | PDict d =>
      match d with
      | [] => 0
      | _ => S (list_max (map (fun kv : pykey * pyval => nesting (snd kv)) d))
      end
  | _ => 0
  end.

(** ** [XRay._capture_input] *)

(** [hasattr(v, '__class__')]: every Python object has a class. *)
Definition hasattr_class (v : pyval) : bool := true.

(** The loop over [enumerate(args[start_idx:], start=start_idx)]. *)
Fixpoint capture_args (i : nat) (args : list pyval) (input_data : jdict) : result jdict :=
  match args with
  | [] => Ok input_data
  | arg :: rest =>
      rbind (_make_json_safe arg) (fun j =>
      capture_args (S i) rest (dict_set ("arg_" +:+ pretty i) j input_data))
  end.

(** The loop over [kwargs.items()]. *)
Fixpoint capture_kwargs (kwargs : list (string * pyval)) (input_data : jdict) : result jdict :=
  match kwargs with
  | [] => Ok input_data
  | (key, value) :: rest =>
      rbind (_make_json_safe value) (fun j =>
      capture_kwargs rest (dict_set key j input_data))
  end.

Definition _capture_input (args : list pyval) (kwargs : list (string * pyval)) : result jdict :=
  let '(input_data, start_idx) :=
    match args with
    | a0 :: _ =>
        if hasattr_class a0
        then (dict_set "self" (JStr (class_name a0 +:+ " object")) [], 1%nat)
        else ([], 0%nat)
    | [] => ([], 0%nat)
    end in
  rbind (capture_args start_idx (drop start_idx args) input_data) (fun input_data =>
  capture_kwargs kwargs input_data).

End Values.

(** ** The environment *)

Class Environment {F : FloatOps} := {
  (** [time.time()] at the n-th access to the environment *)
  time_time : nat -> float;
  (** [datetime.now().isoformat()] at the n-th access *)
  datetime_now_isoformat : nat -> string;
  (** [uuid.uuid4().hex] at the n-th access; [str(uuid.uuid4())] starts with
      the same eight digits *)
  uuid4_hex : nat -> string;
  (** whether [open(name, 'w')] succeeds *)
  can_write : string -> bool;
  (** whether [json.dump(record, f, indent=2)] writes [record] in full; it
      raises part-way, with the beginning of the text already in the file,
      on an integer with more digits than the interpreter converts to a
      string and on nesting deeper than its stack allows *)
  json_dump_ok : json -> bool;
  (** [str(v)] of a list or dict loaded from JSON *)
  container_str : json -> string;
  (** [a < b] on loaded JSON values that are not both strings: the answer
      for numbers and lists, TypeError where Python does not order them *)
  json_lt : json -> json -> result bool;
}.

Section Engine.
Context {F : FloatOps} {E : Environment}.

(** ** [class XRayStep] *)

Record XRayStep := mkXRayStep {
  step_id : string;
  step_name : string;
  step_type : string;
  step_input : jdict;
  step_output : jdict;
  step_reasoning : string;
  step_timestamp : string;
  step_duration_ms : pynum;
  step_success : bool;
  step_error : option string;
  step_start_time : float;
}.

(** The dict built by [XRayStep.to_dict]. A key the engine tests for
    ([reasoning]) is optional, the others are always there. *)
Record StepDict := mkStepDict {
  sd_id : string;
  sd_name : string;
  sd_step_type : string;
  sd_input : jdict;
  sd_output : jdict;
  sd_reasoning : option string;
  sd_timestamp : string;
  sd_duration_ms : pynum;
  sd_success : bool;
  sd_error : option string;
}.

(** The dict of one trace in [XRay.traces]; the last three keys are set by
    [end_trace]. *)
Record Trace := mkTrace {
  tr_id : string;
  tr_name : string;
  tr_start_time : string;
  tr_steps : list StepDict;
  tr_end_time : option string;
  tr_total_steps : option nat;
  tr_total_duration_ms : option pynum;
}.

(** [XRayStep.__init__]: three accesses to the environment. *)
Definition XRayStep_init (name ty : string) (tick : nat) : XRayStep :=
  {| step_id := str_take 8 (uuid4_hex tick);
     step_name := name;
     step_type := ty;
     step_input := [];
     step_output := [];
     step_reasoning := "";
     step_timestamp := datetime_now_isoformat (S tick);
     step_duration_ms := NInt 0;
     step_success := true;
     step_error := None;
     step_start_time := time_time (S (S tick)) |}.

(** [XRayStep.end], given the reading of the clock. *)
Definition XRayStep_end (st : XRayStep) (now : float) : XRayStep :=
  {| step_id := step_id st; step_name := step_name st; step_type := step_type st;
     step_input := step_input st; step_output := step_output st;
     step_reasoning := step_reasoning st; step_timestamp := step_timestamp st;
     step_duration_ms := NFloat (fmul (fsub now (step_start_time st)) (float_of_int 1000));
     step_success := step_success st; step_error := step_error st;
     step_start_time := step_start_time st |}.

(** [XRayStep.add_reasoning] *)
Definition XRayStep_add_reasoning (st : XRayStep) (reasoning : string) : XRayStep :=
  {| step_id := step_id st; step_name := step_name st; step_type := step_type st;
     step_input := step_input st; step_output := step_output st;
     step_reasoning := reasoning; step_timestamp := step_timestamp st;
     step_duration_ms := step_duration_ms st;
     step_success := step_success st; step_error := step_error st;
     step_start_time := step_start_time st |}.

Definition set_input (st : XRayStep) (i : jdict) : XRayStep :=
  {| step_id := step_id st; step_name := step_name st; step_type := step_type st;
     step_input := i; step_output := step_output st;
     step_reasoning := step_reasoning st; step_timestamp := step_timestamp st;
     step_duration_ms := step_duration_ms st;
     step_success := step_success st; step_error := step_error st;
     step_start_time := step_start_time st |}.

(** [step.output = o; step.success = True] *)
Definition set_output (st : XRayStep) (o : jdict) : XRayStep :=
  {| step_id := step_id st; step_name := step_name st; step_type := step_type st;
     step_input := step_input st; step_output := o;
     step_reasoning := step_reasoning st; step_timestamp := step_timestamp st;
     step_duration_ms := step_duration_ms st;
     step_success := true; step_error := step_error st;
     step_start_time := step_start_time st |}.

(** [step.success = False; step.error = msg] *)
Definition set_failed (st : XRayStep) (msg : string) : XRayStep :=
  {| step_id := step_id st; step_name := step_name st; step_type := step_type st;
     step_input := step_input st; step_output := step_output st;
     step_reasoning := step_reasoning st; step_timestamp := step_timestamp st;
     step_duration_ms := step_duration_ms st;
     step_success := false; step_error := Some msg;
     step_start_time := step_start_time st |}.

(** [XRayStep.to_dict] *)
Definition to_dict (st : XRayStep) : StepDict :=
  {| sd_id := step_id st;
     sd_name := step_name st;
     sd_step_type := step_type st;
     sd_input := step_input st;
     sd_output := step_output st;
     sd_reasoning := Some (step_reasoning st);
     sd_timestamp := step_timestamp st;
     sd_duration_ms := num_round2 (step_duration_ms st);
     sd_success := step_success st;
     sd_error := step_error st |}.

(** ** What [json.dump] writes for a trace *)

Definition opt_field {A} (key : string) (enc : A -> json) (o : option A) : jdict :=
  match o with
  | Some a => [(key, enc a)]
  | None => []
  end.

Definition opt_json {A} (enc : A -> json) (o : option A) : json :=
  match o with
  | Some a => enc a
  | None => JNull
  end.

Definition step_json (d : StepDict) : json :=
  JDict ([("id", JStr (sd_id d));
          ("name", JStr (sd_name d));
          ("step_type", JStr (sd_step_type d));
          ("input", JDict (sd_input d));
          ("output", JDict (sd_output d))]
         ++ opt_field "reasoning" JStr (sd_reasoning d)
         ++ [("timestamp", JStr (sd_timestamp d));
             ("duration_ms", JNum (sd_duration_ms d));
             ("success", JBool (sd_success d));
             ("error", opt_json JStr (sd_error d))]).

Definition trace_json (t : Trace) : json :=
  JDict ([("id", JStr (tr_id t));
          ("name", JStr (tr_name t));
          ("start_time", JStr (tr_start_time t));
          ("steps", JList (map step_json (tr_steps t)))]
         ++ opt_field "end_time" JStr (tr_end_time t)
         ++ opt_field "total_steps" (fun n => JNum (NInt (Z.of_nat n))) (tr_total_steps t)
         ++ opt_field "total_duration_ms" JNum (tr_total_duration_ms t)).

(** ** Files *)

(** A file holds the serialisation of a JSON value, which [json.load] gives
    back, or something that [open] or [json.load] fails on, as the
    beginning of a JSON text that was not written to its end. *)
Inductive fcontent :=
| FJson (j : json)
| FBad.

(** ** [class XRay] *)

Record XRay := mkXRay {
  current_trace_id : option string;
  traces : gmap string Trace;
  _current_step : option XRayStep;
}.

(** The tracer in its surroundings: the number of accesses made to the
    environment, the working directory, and a log of the keys on which a
    lookup in [traces] raised KeyError. *)
Record World := mkWorld {
  xray : XRay;
  ticks : nat;
  disk : gmap string fcontent;
  key_errors : list string;
}.

(** [XRay.__init__] *)
Definition XRay_init : XRay :=
  {| current_trace_id := None; traces := ∅; _current_step := None |}.

Definition init_world (files : gmap string fcontent) : World :=
  {| xray := XRay_init; ticks := 0; disk := files; key_errors := [] |}.

Definition with_xray (w : World) (x : XRay) : World :=
  {| xray := x; ticks := ticks w; disk := disk w; key_errors := key_errors w |}.

Definition with_step (w : World) (o : option XRayStep) : World :=
  with_xray w {| current_trace_id := current_trace_id (xray w);
                 traces := traces (xray w);
                 _current_step := o |}.

Definition with_traces (w : World) (m : gmap string Trace) : World :=
  with_xray w {| current_trace_id := current_trace_id (xray w);
                 traces := m;
                 _current_step := _current_step (xray w) |}.

Definition tick (n : nat) (w : World) : World :=
  {| xray := xray w; ticks := n + ticks w; disk := disk w; key_errors := key_errors w |}.

Definition log_key_error (key : string) (w : World) : World :=
  {| xray := xray w; ticks := ticks w; disk := disk w;
     key_errors := key_errors w ++ [key] |}.

(** Truth value of [self.current_trace_id]: set, and not the empty string. *)
Definition active_id (x : XRay) : option string :=
  match current_trace_id x with
  | Some tid => if String.eqb tid "" then None else Some tid
  | None => None
  end.

(** ** [XRay.start_trace] *)

Definition new_trace_id (tick : nat) : string :=
  let timestamp := float_trunc (time_time tick) in
  let short_id := str_take 8 (uuid4_hex (S tick)) in
  "trace_" +:+ pretty timestamp +:+ "_" +:+ short_id.

Definition start_trace (trace_name : string) (w : World) : World * string :=
  let tid := new_trace_id (ticks w) in
  let trace := {| tr_id := tid;
                  tr_name := trace_name;
                  tr_start_time := datetime_now_isoformat (S (S (ticks w)));
                  tr_steps := [];
                  tr_end_time := None;
                  tr_total_steps := None;
                  tr_total_duration_ms := None |} in
  (tick 3 (with_xray w {| current_trace_id := Some tid;
                          traces := <[tid := trace]> (traces (xray w));
                          _current_step := _current_step (xray w) |}),
   tid).

(** ** [XRay.add_reasoning] *)

Definition newline : string := String "010"%char EmptyString.

Definition set_sd_reasoning (d : StepDict) (r : option string) : StepDict :=
  {| sd_id := sd_id d; sd_name := sd_name d; sd_step_type := sd_step_type d;
     sd_input := sd_input d; sd_output := sd_output d;
     sd_reasoning := r;
     sd_timestamp := sd_timestamp d; sd_duration_ms := sd_duration_ms d;
     sd_success := sd_success d; sd_error := sd_error d |}.

(** The update of [steps[-1]]: [+=] when the key is there, [=] otherwise. *)
Definition append_reasoning (reasoning : string) (d : StepDict) : StepDict :=
  match sd_reasoning d with
  | Some old => set_sd_reasoning d (Some (old +:+ newline +:+ reasoning))
  | None => set_sd_reasoning d (Some reasoning)
  end.

Fixpoint update_last {A} (f : A -> A) (l : list A) : list A :=
  match l with
  | [] => []
  | [x] => [f x]
  | x :: r => x :: update_last f r
  end.

Definition set_steps (t : Trace) (steps : list StepDict) : Trace :=
  {| tr_id := tr_id t; tr_name := tr_name t; tr_start_time := tr_start_time t;
     tr_steps := steps;
     tr_end_time := tr_end_time t; tr_total_steps := tr_total_steps t;
     tr_total_duration_ms := tr_total_duration_ms t |}.

Definition add_reasoning (reasoning : string) (w : World) : World * outcome unit :=
  match _current_step (xray w) with
  | Some st => (with_step w (Some (XRayStep_add_reasoning st reasoning)), Returned ())
  | None =>
      match active_id (xray w) with
      | None => (w, Returned ())
      | Some tid =>
          match traces (xray w) !! tid with
          | None => (log_key_error tid w, Raised (KeyError tid))
          | Some trace =>
              match tr_steps trace with
              | [] => (w, Returned ())
              | steps =>
                  (with_traces w
                     (<[tid := set_steps trace (update_last (append_reasoning reasoning) steps)]>
                        (traces (xray w))),
                   Returned ())
              end
          end
      end
  end.

(** ** [XRay._save_to_file] and [XRay.end_trace] *)

Definition trace_file (trace_id : string) : string := "trace_" +:+ trace_id +:+ ".json".

(** [open] and [json.dump] are inside one [try]: when the file cannot be
    opened nothing is written; when [json.dump] raises after the file was
    opened, the file is left with the part written so far. Both exceptions
    are instances of [Exception] and end in the [except] branch, which
    prints. *)
Definition _save_to_file (trace_id : string) (w : World) : World :=
  match traces (xray w) !! trace_id with
  | Some trace =>
      let filename := trace_file trace_id in
      if can_write filename
      then {| xray := xray w; ticks := ticks w;
              disk := <[filename := if json_dump_ok (trace_json trace)
                                    then FJson (trace_json trace)
                                    else FBad]> (disk w);
              key_errors := key_errors w |}
      else w
  | None => w
  end.

Definition finalize (trace : Trace) (end_time : string) : Trace :=
  {| tr_id := tr_id trace; tr_name := tr_name trace;
     tr_start_time := tr_start_time trace;
     tr_steps := tr_steps trace;
     tr_end_time := Some end_time;
     tr_total_steps := Some (length (tr_steps trace));
     tr_total_duration_ms :=
       Some (num_round2 (py_sum (map sd_duration_ms (tr_steps trace)))) |}.

Definition end_trace (w : World) : World * outcome (option string) :=
  match active_id (xray w) with
  | None => (w, Returned None)
  | Some tid =>
      match traces (xray w) !! tid with
      | None => (log_key_error tid w, Raised (KeyError tid))
      | Some trace =>
          let trace := finalize trace (datetime_now_isoformat (ticks w)) in
          let w := tick 1 (with_traces w (<[tid := trace]> (traces (xray w)))) in
          let case_id := tid in
          let w := _save_to_file case_id w in
          (with_xray w {| current_trace_id := None;
                          traces := traces (xray w);
                          _current_step := None |},
           Returned (Some case_id))
      end
  end.

(** ** [XRay.trace]: the wrapper around an instrumented function

    The wrapper reads [self._current_step] again at every use, so each part
    below looks the slot up and raises AttributeError when it holds [None].
    Console output ([_show_step_info], the progress lines) is left out. *)

(** The two statements before [try]. An exception of [_capture_input]
    leaves the wrapper at once, the new step still in the slot. *)
Definition wrapper_open (name ty : string) (args : list pyval)
    (kwargs : list (string * pyval)) (w : World) : World * outcome unit :=
  let st := XRayStep_init name ty (ticks w) in
  let w := tick 3 (with_step w (Some st)) in
  match _capture_input args kwargs with
  | Err e => (w, Raised e)
  | Ok input_data => (with_step w (Some (set_input st input_data)), Returned ())
  end.

(** [except Exception as e], with [e] in flight: an instance of
    [Exception] enters the branch, which marks the step and raises [e] again;
    any other exception passes the clause by, on its way to [finally]. The
    outcome is what is in flight afterwards. *)
Definition wrapper_except (e : exn) (w : World) : World * outcome pyval :=
  if is_Exception e
  then match _current_step (xray w) with
       | None => (w, Raised (AttributeError "success"))
       | Some st => (with_step w (Some (set_failed st (exn_str e))), Raised e)
       end
  else (w, Raised e).

(** The [try] body after [func] has returned [result]. *)
Definition wrapper_returned (res : pyval) (w : World) : World * outcome pyval :=
  match _make_json_safe res with
  | Err e => wrapper_except e w
  | Ok j =>
      match _current_step (xray w) with
      | None => wrapper_except (AttributeError "output") w
      | Some st => (with_step w (Some (set_output st [("result", j)])), Returned res)
      end
  end.

Definition append_step (trace : Trace) (d : StepDict) : Trace :=
  set_steps trace (tr_steps trace ++ [d]).

(** [finally], entered with the pending return value or exception. *)
Definition wrapper_finally (pending : outcome pyval) (w : World) : World * outcome pyval :=
  match _current_step (xray w) with
  | None => (w, Raised (AttributeError "end"))
  | Some st =>
      let st := XRayStep_end st (time_time (ticks w)) in
      let w := tick 1 w in
      let w :=
        match active_id (xray w) with
        | Some tid =>
            match traces (xray w) !! tid with
            | Some trace =>
                with_traces w (<[tid := append_step trace (to_dict st)]> (traces (xray w)))
            | None => w
            end
        | None => w
        end in
      (with_step w None, pending)
  end.

(** The wrapper, given what running [func] on its arguments does. *)
Definition wrapper (name ty : string) (call : World -> World * outcome pyval)
    (args : list pyval) (kwargs : list (string * pyval)) (w : World)
    : World * outcome pyval :=
  match wrapper_open name ty args kwargs w with
  | (w, Raised e) => (w, Raised e)
  | (w, Returned _) =>
      let '(w, pending) :=
        match call w with
        | (w, Returned res) => wrapper_returned res w
        | (w, Raised e) => wrapper_except e w
        end in
      wrapper_finally pending w
  end.

(** ** Pipeline code

    What the code using the tracer does with it: it returns or raises,
    calls the public operations, calls functions decorated with
    [@xray.trace] (whose bodies are pipeline code again) and may catch
    exceptions. *)
Inductive prog :=
| Return (v : pyval)
| Raise (e : exn)
| StartTrace (trace_name : string) (k : string -> prog)
| EndTrace (k : option string -> prog)
| AddReasoning (reasoning : string) (k : prog)
| Traced (name ty : string)
         (func : list pyval -> list (string * pyval) -> prog)
         (args : list pyval) (kwargs : list (string * pyval))
         (k : pyval -> prog)
| TryExcept (body : prog) (handler : exn -> prog).

Fixpoint run (p : prog) (w : World) : World * outcome pyval :=
  match p with
  | Return v => (w, Returned v)
  | Raise e => (w, Raised e)
  | StartTrace trace_name k =>
      let '(w, tid) := start_trace trace_name w in run (k tid) w
  | EndTrace k =>
      match end_trace w with
      | (w, Returned r) => run (k r) w
      | (w, Raised e) => (w, Raised e)
      end
  | AddReasoning reasoning k =>
      match add_reasoning reasoning w with
      | (w, Returned _) => run k w
      | (w, Raised e) => (w, Raised e)
      end
  | Traced name ty func args kwargs k =>
      match wrapper name ty (run (func args kwargs)) args kwargs w with
      | (w, Returned v) => run (k v) w
      | (w, Raised e) => (w, Raised e)
      end
  | TryExcept body handler =>
      match run body w with
      | (w, Raised e) => run (handler e) w
      | r => r
      end
  end.

(** Pipeline code that neither calls an instrumented function nor ends the
    trace: the body of a step of the single-flow use the engine is made
    for. *)
Inductive plain : prog -> Prop :=
| plain_Return v : plain (Return v)
| plain_Raise e : plain (Raise e)
| plain_StartTrace trace_name k :
    (forall tid, plain (k tid)) -> plain (StartTrace trace_name k)
| plain_AddReasoning reasoning k : plain k -> plain (AddReasoning reasoning k)
| plain_TryExcept body handler :
    plain body -> (forall e, plain (handler e)) -> plain (TryExcept body handler).

(** Two states of one step object that differ at most in the reasoning. *)
Definition same_step (a b : XRayStep) : Prop :=
  XRayStep_add_reasoning a (step_reasoning b) = b.

End Engine.

(** ** Strings as [server.py] uses them *)

Definition startswith (p s : string) : bool := String.prefix p s.

(** [s.endswith(suffix)]: some tail of [s] is [suffix]. *)
Fixpoint endswith (suffix s : string) : bool :=
  String.eqb suffix s ||
  match s with
  | EmptyString => false
  | String _ r => endswith suffix r
  end.

(** [s.replace(old, new)] for a non-empty [old]: occurrences are replaced
    from the left, [skip] counts the characters of a match still to drop. *)
Fixpoint replace_go (old new : string) (skip : nat) (s : string) : string :=
  match s with
  | EmptyString => EmptyString
  | String c r =>
      match skip with
      | S n => replace_go old new n r
      | O =>
          if String.prefix old s
          then new +:+ replace_go old new (String.length old - 1) r
          else String c (replace_go old new 0 r)
      end
  end.

Definition str_replace (old new s : string) : string := replace_go old new 0 s.

(** [s.split(sep)] for a one-character separator: the pieces between the
    separators, at least one. *)
Fixpoint str_split (sep : ascii) (s : string) : list string :=
  match s with
  | EmptyString => [EmptyString]
  | String c r =>
      if Ascii.eqb c sep then EmptyString :: str_split sep r
      else match str_split sep r with
           | piece :: pieces => String c piece :: pieces
           | [] => [String c EmptyString]
           end
  end.

Fixpoint has_char (c : ascii) (s : string) : bool :=
  match s with
  | EmptyString => false
  | String c' r => Ascii.eqb c c' || has_char c r
  end.

(** The part of [s] before the first [c], all of [s] when there is none. *)
Fixpoint cut_at (c : ascii) (s : string) : string :=
  match s with
  | EmptyString => EmptyString
  | String c' r => if Ascii.eqb c c' then EmptyString else String c' (cut_at c r)
  end.

Fixpoint str_drop (n : nat) (s : string) : string :=
  match n, s with
  | S n, String _ r => str_drop n r
  | _, _ => s
  end.

(** After a leading [//] the network location runs up to the first of
    [/], [?] and [#]; the rest is parsed on. *)
Fixpoint drop_netloc (s : string) : string :=
  match s with
  | EmptyString => EmptyString
  | String c r =>
      if Ascii.eqb c "/" || Ascii.eqb c "?" || Ascii.eqb c "#" then s else drop_netloc r
  end.

(** Parameters: cut at the first [;] at or after the last [/]. *)
Fixpoint cut_params (s : string) : string :=
  match s with
  | EmptyString => EmptyString
  | String c r =>
      if has_char "/" r then String c (cut_params r)
      else if Ascii.eqb c ";" then EmptyString
      else String c (cut_params r)
  end.

(** [urllib.parse.urlparse(target).path] for a request target in origin
    form (one that starts with [/] and so carries no scheme). *)
Definition urlparse_path (target : string) : string :=
  let url := if startswith "//" target then drop_netloc (str_drop 2 target) else target in
  cut_params (cut_at "?" (cut_at "#" url)).

(** An id that can be written as the last segment of a request path and
    read back from it: none of the characters that end a segment, the path
    or its parameters. *)
Definition url_safe (s : string) : bool :=
  negb (has_char "/" s) && negb (has_char "?" s)
  && negb (has_char "#" s) && negb (has_char ";" s).

(** White space as [str.split()] sees it in a request line, which
    [http.server] decodes from Latin-1 and splits into method, target and
    version: a target never holds any. *)
Definition is_space (c : ascii) : bool :=
  let n := nat_of_ascii c in
  (Nat.leb 9 n && Nat.leb n 13) || (Nat.leb 28 n && Nat.leb n 32)
  || Nat.eqb n 133 || Nat.eqb n 160.

Fixpoint has_space (s : string) : bool :=
  match s with
  | EmptyString => false
  | String c r => is_space c || has_space r
  end.

Section Dashboard.
Context {F : FloatOps} {E : Environment}.

(** ** [class DashboardHandler]

    A response is the page, a JSON body with its status, the answer of
    [send_error] (the status; the explanatory text is left out), or no
    answer at all when an exception leaves the handler. *)
Inductive response :=
| Page
| JsonResponse (status : nat) (body : json)
| ErrorResponse (status : nat)
| Uncaught.

(** [f"{v}"] for a value loaded from JSON *)
Definition py_format (v : json) : string :=
  match v with
  | JNull => "None"
  | JBool b => bool_str b
  | JNum n => num_str n
  | JStr s => s
  | _ => container_str v
  end.

Definition is_trace_file (file : string) : bool :=
  startswith "trace_" file && endswith ".json" file.

(** [os.listdir('.')], in an order the file system chooses. *)
Definition listdir (d : gmap string fcontent) : list string := (map_to_list d).*1.

(** The body of [try] in [_send_trace_list]: the summary of one file, or
    [None] when an exception sends the loop on to the next file. Only a
    dict has [get]. *)
Definition summary_of_file (d : gmap string fcontent) (file : string) : option jdict :=
  match d !! file with
  | Some (FJson (JDict data)) =>
      Some [("id", dict_get_default "id"
                     (JStr (str_replace ".json" "" (str_replace "trace_" "" file))) data);
            ("name", dict_get_default "name" (JStr "Trace") data);
            ("start_time", dict_get_default "start_time" (JStr "") data);
            ("total_steps", dict_get_default "total_steps" (JNum (NInt 0)) data);
            ("total_duration_ms", dict_get_default "total_duration_ms" (JNum (NInt 0)) data)]
  | _ => None
  end.

(** [a < b] *)
Definition py_lt (a b : json) : result bool :=
  match a, b with
  | JStr x, JStr y => Ok (String.ltb x y)
  | _, _ => json_lt a b
  end.

(** [list.sort(key=..., reverse=True)]: the list is reversed, sorted
    upwards keeping equal keys in order, and reversed again. The stable
    sort is by insertion here; an exception of a comparison ends it. *)
Fixpoint insert_by (key : jdict -> json) (x : jdict) (sorted : list jdict)
    : result (list jdict) :=
  match sorted with
  | [] => Ok [x]
  | y :: r =>
      rbind (py_lt (key y) (key x)) (fun lt =>
      if lt : bool
      then rbind (insert_by key x r) (fun r' => Ok (y :: r'))
      else Ok (x :: y :: r))
  end.

Fixpoint sort_by (key : jdict -> json) (l : list jdict) : result (list jdict) :=
  match l with
  | [] => Ok []
  | x :: r => rbind (sort_by key r) (insert_by key x)
  end.

Definition sort_reverse (key : jdict -> json) (l : list jdict) : result (list jdict) :=
  rbind (sort_by key (rev l)) (fun sorted => Ok (rev sorted)).

Definition start_time_key (x : jdict) : json := dict_get_default "start_time" (JStr "") x.

Definition _send_json_response (data : json) : response := JsonResponse 200 data.

Definition _send_trace_list (d : gmap string fcontent) : response :=
  let trace_files :=
    omap (fun file => if is_trace_file file then summary_of_file d file else None)
         (listdir d) in
  match sort_reverse start_time_key trace_files with
  | Ok trace_files => _send_json_response (JList (map JDict trace_files))
  | Err _ => Uncaught
  end.

Definition _send_single_trace (trace_id : string) (d : gmap string fcontent) : response :=
  let file_name := "trace_" +:+ trace_id +:+ ".json" in
  match d !! file_name with
  | Some (FJson trace_data) => _send_json_response trace_data
  | Some FBad => Uncaught
  | None => ErrorResponse 404
  end.

(** [_save_new_trace], given what [json.loads] makes of the request body.
    Everything that raises inside [try] ends in [send_error(500, ...)]. *)
Definition _save_new_trace (body : fcontent) (d : gmap string fcontent)
    : gmap string fcontent * response :=
  match body with
  | FJson (JDict trace) =>
      match dict_get "id" trace with
      | Some trace_id =>
          let file_name := "trace_" +:+ py_format trace_id +:+ ".json" in
          if can_write file_name
          then (<[file_name := FJson (JDict trace)]> d,
                JsonResponse 201 (JDict [("ok", JBool true); ("id", trace_id)]))
          else (d, ErrorResponse 500)
      | None => (d, ErrorResponse 500)
      end
  | _ => (d, ErrorResponse 500)
  end.

Definition do_GET (target : string) (d : gmap string fcontent) : response :=
  let path := urlparse_path target in
  if String.eqb path "/" then Page
  else if String.eqb path "/api/traces" then _send_trace_list d
  else if startswith "/api/trace/" path
       then _send_single_trace (List.last (str_split "/" path) EmptyString) d
       else ErrorResponse 404.

Definition do_POST (target : string) (body : fcontent) (d : gmap string fcontent)
    : gmap string fcontent * response :=
  if String.eqb target "/api/traces" then _save_new_trace body d
  else (d, ErrorResponse 404).

End Dashboard.

(** * The demo pipeline: [demo_app/competitor_selection.py] *)

(** [needle in s] on strings *)
Fixpoint str_contains (needle s : string) : bool :=
  startswith needle s
  || match s with
     | EmptyString => false
     | String _ r => str_contains needle r
     end.

(** A product as the entries of [MOCK_PRODUCTS] are: a dict with these
    five keys, strings under [id] and [title]. *)
Record Product {F : FloatOps} := mkProduct {
  p_id : string;
  p_title : string;
  p_price : float;
  p_rating : float;
  p_reviews : Z;
}.

Section Selector.
Context {F : FloatOps} {E : Environment}.

(** [str.lower()] and [str.split()] follow the Unicode tables for case and
    for white space; the two are taken as given. *)
Context (lower : string -> string) (split : string -> list string).

(** ** [CompetitorSelector.generate_keywords] *)

(** "Strategy 2": the key terms found in the title. *)
Definition key_terms_of (product_title : string) (words : list string) : list string :=
  ((if bool_decide ("stainless" ∈ words) then ["stainless steel"] else [])
   ++ (if bool_decide ("insulated" ∈ words) then ["insulated"] else [])
   ++ (if bool_decide ("water" ∈ words) && bool_decide ("bottle" ∈ words)
       then ["water bottle"] else [])
   ++ (if str_contains "32oz" product_title || str_contains "32 oz" product_title
       then ["32oz"] else []))%list.

(** The loop under "Remove duplicates", started with [seen] and
    [unique_keywords] as they are when [keywords] is still to be read. *)
Fixpoint remove_duplicates (keywords : list string) (seen : gset string)
    (unique_keywords : list string) : list string :=
  match keywords with
  | [] => unique_keywords
  | kw :: keywords =>
      if negb (String.eqb kw "") && bool_decide (kw ∉ seen)
      then remove_duplicates keywords ({[kw]} ∪ seen) (unique_keywords ++ [kw])%list
      else remove_duplicates keywords seen unique_keywords
  end.

(** The keywords in the order of the three strategies, before the
    duplicates are removed. *)
Definition candidate_keywords (product_title : string) : list string :=
  let words := split (lower product_title) in
  let keywords := [product_title] in
  let key_terms := key_terms_of product_title words in
  let keywords :=
    match key_terms with
    | [] => keywords
    | _ => (keywords ++ [String.concat " " key_terms])%list
    end in
  let simple_title := String.concat " " (take 4 words) in
  (keywords ++ [simple_title])%list.

(** The body of the method; the pause of [time.sleep] is left out. *)
Definition generate_keywords (product_title : string) : prog :=
  let words := split (lower product_title) in
  let key_terms := key_terms_of product_title words in
  let unique_keywords := remove_duplicates (candidate_keywords product_title) ∅ [] in
  AddReasoning
    ("Generated " +:+ pretty (length unique_keywords) +:+ " keywords from title: '"
     +:+ product_title +:+ "'. " +:+ "Extracted key terms: "
     +:+ match key_terms with
         | [] => "None"
         | _ => String.concat ", " key_terms
         end)
    (Return (PList (map PStr unique_keywords))).

(** ** [CompetitorSelector.run_pipeline] *)

(** The loop under "Remove duplicates by ID". *)
Fixpoint unique_by_id (all_candidates : list Product) (seen_ids : gset string)
    (unique_candidates : list Product) : list Product :=
  match all_candidates with
  | [] => unique_candidates
  | product :: all_candidates =>
      if bool_decide (p_id product ∉ seen_ids)
      then unique_by_id all_candidates ({[p_id product]} ∪ seen_ids)
             (unique_candidates ++ [product])%list
      else unique_by_id all_candidates seen_ids unique_candidates
  end.

(** The dict returned from [except]. *)
Definition pipeline_error (e : exn) (trace_id : string) : pyval :=
  PDict [(KStr "success", PBool false);
         (KStr "error", PStr (exn_str e));
         (KStr "trace_id", PStr trace_id)].

(** The frame of [run_pipeline]: [start_trace], then [try], [except
    Exception] and [finally] around the steps. [steps trace_id] is the body
    of [try], whatever it is: the four instrumented calls, what is computed
    and printed between them, and the [return] of the result. An instance
    of [Exception] raised by the steps is turned into the error dict; any
    other exception stays in flight through [finally]. An exception of
    [end_trace] in [finally] replaces what is pending. The header
    printed before [start_trace], which needs the product to have a string
    under [title] and a number under [price], is left out, as is all other
    console output. *)
Definition run_pipeline (title : string) (steps : string -> prog) (w : World)
    : World * outcome pyval :=
  let '(w, trace_id) := start_trace ("CompetitorSelection_" +:+ str_take 30 title) w in
  let '(w, pending) :=
    match run (steps trace_id) w with
    | (w, Raised e) =>
        if is_Exception e then (w, Returned (pipeline_error e trace_id))
        else (w, Raised e)
    | (w, Returned result) => (w, Returned result)
    end in
  match end_trace w with
  | (w, Raised e) => (w, Raised e)
  | (w, Returned saved_file) => (w, pending)
  end.

End Selector.

(** ** An environment to run the model in

    Clock readings in whole units, the n-th reading being [n] seconds;
    identifiers and time stamps numbered by the access; every file
    writable; [json.dump] as in an interpreter that converts integers of up
    to 4300 digits to a string, its default since Python 3.11. *)
Definition demo_floats : FloatOps :=
  {| float := Z;
     float_of_int := fun z => z;
     fadd := Z.add;
     fsub := Z.sub;
     fmul := Z.mul;
     round2 := fun z => z;
     float_trunc := fun z => z;
     float_str := fun z => pretty z +:+ ".0" |}.

Definition int_str_bound : Z := Eval vm_compute in (10 ^ 4300)%Z.

Fixpoint ints_below {F : FloatOps} (bound : Z) (j : json) : bool :=
  match j with
  | JNum (NInt z) => (Z.abs z <? bound)%Z
  | JList l => forallb (ints_below bound) l
  | JDict d => forallb (fun kv : string * json => ints_below bound (snd kv)) d
  | _ => true
  end.

Definition demo_env : @Environment demo_floats :=
  {| time_time := fun n => (Z.of_nat n : @float demo_floats);
     datetime_now_isoformat := fun n => "2024-01-01T00:00:" +:+ pretty n;
     uuid4_hex := fun n => "0000000" +:+ pretty n +:+ "aaaaaaaaaaaaaaaaaaaaaaaa";
     can_write := fun _ => true;
     json_dump_ok := ints_below int_str_bound;
     container_str := fun _ => "[...]";
     json_lt := fun _ _ => Err (Exn "TypeError" "'<' not supported") |}.

(** ** A catalogue of persisted traces

    The directory after [traces] have been saved, each in the file named
    after its id, next to one more file [bad] that holds [content]. *)
Definition trace_record_id {F : FloatOps} (t : jdict) : string :=
  match dict_get "id" t with
  | Some (JStr i) => i
  | _ => EmptyString
  end.

(** A persisted trace has the five fields of a summary, with a string for
    the id and for the start time. *)
Definition well_formed_trace {F : FloatOps} (t : jdict) : bool :=
  match dict_get "id" t, dict_get "name" t, dict_get "start_time" t,
        dict_get "total_steps" t, dict_get "total_duration_ms" t with
  | Some (JStr _), Some _, Some (JStr _), Some _, Some _ => true
  | _, _, _, _, _ => false
  end.

Definition summary_keys : list string :=
  ["id"; "name"; "start_time"; "total_steps"; "total_duration_ms"].

(** The summary a trace record is listed with: its own five fields. *)
Definition expected_summary {F : FloatOps} (t : jdict) : jdict :=
  map (fun key => (key, dict_get_default key JNull t)) summary_keys.

(** Whether a file holds a JSON object; anything else is a record that
    [_send_trace_list] cannot read. *)
Definition holds_dict {F : FloatOps} (content : fcontent) : bool :=
  match content with
  | FJson (JDict _) => true
  | _ => false
  end.

Definition saved_file {F : FloatOps} (t : jdict) : string * fcontent :=
  (trace_file (trace_record_id t), FJson (JDict t)).

Definition store_with {F : FloatOps} (bad : string) (content : fcontent)
    (traces : list jdict) : gmap string fcontent :=
  <[bad := content]> (list_to_map (map saved_file traces)).

(** Two listable traces, saved next to a file that does not parse. *)
Definition demo_records : list (@jdict demo_floats) :=
  [ [("id", JStr "t1"); ("name", JStr "first"); ("start_time", JStr "2024-01-01T10:00:00");
     ("steps", JList []); ("total_steps", JNum (NInt 0));
     ("total_duration_ms", JNum (NInt 0))];
    [("id", JStr "t2"); ("name", JStr "second"); ("start_time", JStr "2024-01-02T10:00:00");
     ("steps", JList []); ("total_steps", JNum (NInt 3));
     ("total_duration_ms", JNum (@NFloat demo_floats 45%Z))] ].

(** ** Reading a persisted record back

    The [duration_ms] of a step record as stored in a trace file. *)
Definition record_duration_ms {F : FloatOps} (step_record : json) : pynum :=
  match step_record with
  | JDict d =>
      match dict_get "duration_ms" d with
      | Some (JNum n) => n
      | _ => NInt 0
      end
  | _ => NInt 0
  end.

(** A tracer with one active trace of two closed steps, in [demo_env]. *)
Definition demo_step (name : string) (ms : Z) : @StepDict demo_floats :=
  {| sd_id := "0000000a"; sd_name := name; sd_step_type := "search";
     sd_input := []; sd_output := [("result", JNum (NInt 42))];
     sd_reasoning := Some ""; sd_timestamp := "2024-01-01T00:00:01";
     sd_duration_ms := @NFloat demo_floats ms; sd_success := true; sd_error := None |}.

Definition demo_trace : @Trace demo_floats :=
  {| tr_id := "t"; tr_name := "demo"; tr_start_time := "2024-01-01T00:00:00";
     tr_steps := [demo_step "Search Products" 12; demo_step "Rank Products" 30];
     tr_end_time := None; tr_total_steps := None; tr_total_duration_ms := None |}.

Definition demo_world : @World demo_floats :=
  {| xray := {| current_trace_id := Some "t";
                traces := {[ "t" := demo_trace ]};
                _current_step := None |};
     ticks := 7; disk := ∅; key_errors := [] |}.

(** What a pipeline leaves in the trace table of [demo_env], step by step:
    name, success, error and reasoning of every recorded step. *)
Definition recorded_steps (w : @World demo_floats)
    : list (string * bool * option string * option string) :=
  flat_map (fun entry : string * @Trace demo_floats =>
              map (fun d => (sd_name d, sd_success d, sd_error d, sd_reasoning d))
                  (tr_steps (snd entry)))
           (map_to_list (traces (xray w))).

Definition run_demo (p : @prog demo_floats) : @World demo_floats * outcome (@pyval demo_floats) :=
  @run demo_floats demo_env p (@init_world demo_floats ∅).

(** ** Notions the statements use *)

Section Notions.
Context {F : FloatOps} {E : Environment}.

(** The state in which the wrapped function starts to run. *)
Definition opened (name ty : string) (input_data : jdict) (w : World) : World :=
  with_step (tick 3 (with_step w (Some (XRayStep_init name ty (ticks w)))))
    (Some (set_input (XRayStep_init name ty (ticks w)) input_data)).

(** The active id is a non-empty string and a key of the table. *)
Definition active_trace_known (w : World) : Prop :=
  match current_trace_id (xray w) with
  | Some tid => tid <> "" /\ is_Some (traces (xray w) !! tid)
  | None => True
  end.

(** The invariant of the tracer: the above, and no lookup in the table has
    raised KeyError so far. *)
Definition tracer_inv (w : World) : Prop :=
  active_trace_known w /\ key_errors w = [].

(** The sort key of a summary is a string. *)
Definition string_key (key : jdict -> json) (x : jdict) : Prop :=
  exists t, key x = JStr t.

End Notions.

(** ** Notions for the properties of whole runs *)

Section RunNotions.
Context {F : FloatOps} {E : Environment}.

(** A step record as the wrapper leaves it: the [reasoning] key is there,
    and either the step counts as a success (no error; the sanitized
    result as the only output, or no output when an exception that is no
    instance of [Exception] ended the call) or it failed (the message, no
    output). *)
Definition step_record_ok (d : StepDict) : Prop :=
  sd_reasoning d <> None
  /\ ((sd_success d = true /\ sd_error d = None
       /\ (sd_output d = [] \/ exists j, sd_output d = [("result", j)]))
      \/ (sd_success d = false /\ sd_error d <> None /\ sd_output d = [])).

(** A step object between the operations of the tracer: still as
    [__init__] and [_capture_input] left it, but for the reasoning. *)
Definition step_pristine (st : XRayStep) : Prop :=
  step_success st = true /\ step_error st = None /\ step_output st = [].

(** The table holds every trace under its own id, and only step records
    that are as the wrapper leaves them; a step in the slot is pristine. *)
Definition table_ok (w : World) : Prop :=
  (forall tid trace, traces (xray w) !! tid = Some trace ->
     tr_id trace = tid /\ Forall step_record_ok (tr_steps trace))
  /\ (forall st, _current_step (xray w) = Some st -> step_pristine st).

End RunNotions.

(** ** Order of a listing *)

(** [a] is not older than [b]: both start times are strings and the one
    of [b] is not greater. *)
Definition newest_first {F : FloatOps} (a b : jdict) : Prop :=
  exists ta tb, start_time_key a = JStr ta /\ start_time_key b = JStr tb
                /\ String.leb tb ta = true.

(** * Properties *)

Create HintDb tracer discriminated.

(** Case analysis on the five fields that make a record well formed: what
    is left has all of them present, the hypothesis [Hwf] saying that the
    id and the start time are strings. *)
Ltac well_formed_fields t Hwf :=
  let j1 := fresh "jid" in
  let j3 := fresh "jstart" in
  destruct (dict_get "id" t) as [j1|] eqn:?; [|discriminate Hwf];
  destruct (dict_get "name" t) as [?|] eqn:?; [|destruct j1; discriminate Hwf];
  destruct (dict_get "start_time" t) as [j3|] eqn:?; [|destruct j1; discriminate Hwf];
  destruct (dict_get "total_steps" t) as [?|] eqn:?; [|destruct j1, j3; discriminate Hwf];
  destruct (dict_get "total_duration_ms" t) as [?|] eqn:?;
    [|destruct j1, j3; discriminate Hwf];
  destruct j1; try discriminate Hwf; destruct j3; try discriminate Hwf.

Section Properties.
Context {F : FloatOps} {E : Environment}.

(** ** The open-step slot across an instrumented call *)

Lemma wrapper_finally_slot pending w :
  _current_step (xray (fst (wrapper_finally pending w))) = None.
Proof.
  unfold wrapper_finally.
  destruct (_current_step (xray w)) as [st|] eqn:Hslot; simpl; [reflexivity | exact Hslot].
Qed.

Lemma wrapper_finally_empty pending w :
  _current_step (xray w) = None ->
  wrapper_finally pending w = (w, Raised (AttributeError "end")).
Proof. intros Hslot. unfold wrapper_finally. rewrite Hslot. reflexivity. Qed.

Lemma wrapper_except_empty e w :
  _current_step (xray w) = None -> fst (wrapper_except e w) = w.
Proof.
  intros Hslot. unfold wrapper_except. rewrite Hslot.
  destruct (is_Exception e); reflexivity.
Qed.

Lemma wrapper_returned_empty res w :
  _current_step (xray w) = None -> fst (wrapper_returned res w) = w.
Proof.
  intros Hslot. unfold wrapper_returned.
  destruct (_make_json_safe res); [rewrite Hslot |]; apply wrapper_except_empty, Hslot.
Qed.

(** With the slot empty, whatever is pending after [try] and [except], the
    wrapper ends in the AttributeError of [finally] and leaves the state
    as it was. *)
Lemma wrapper_finally_after_empty (r : World * outcome pyval) w :
  _current_step (xray w) = None -> fst r = w ->
  wrapper_finally (snd r) (fst r) = (w, Raised (AttributeError "end")).
Proof. intros Hslot ->. apply wrapper_finally_empty, Hslot. Qed.

(** Once the arguments are captured, the wrapper always leaves the slot
    empty, whatever the call did and however it ended. *)
Lemma wrapper_slot_empty name ty call args kwargs input_data w :
  _capture_input args kwargs = Ok input_data ->
  _current_step (xray (fst (wrapper name ty call args kwargs w))) = None.
Proof.
  intros Hcap. unfold wrapper, wrapper_open. rewrite Hcap.
  match goal with |- context [call ?w1] => destruct (call w1) as [w2 [res|e]] end.
  - destruct (wrapper_returned res w2) as [w3 pending]. apply wrapper_finally_slot.
  - destruct (wrapper_except e w2) as [w3 pending]. apply wrapper_finally_slot.
Qed.

(** A call that comes back with the slot empty makes the wrapper raise
    AttributeError, whether the call returned or raised. *)
Lemma wrapper_after_slot_emptied name ty call args kwargs input_data w :
  _capture_input args kwargs = Ok input_data ->
  (forall w1, _current_step (xray (fst (call w1))) = None) ->
  snd (wrapper name ty call args kwargs w) = Raised (AttributeError "end").
Proof.
  intros Hcap Hcall. unfold wrapper, wrapper_open. rewrite Hcap.
  match goal with |- context [call ?w1] =>
    specialize (Hcall w1); destruct (call w1) as [w2 [res|e]] end; simpl in Hcall.
  - pose proof (wrapper_finally_after_empty (wrapper_returned res w2) w2 Hcall
                  (wrapper_returned_empty _ _ Hcall)) as Hfin.
    destruct (wrapper_returned res w2) as [w3 pending]. cbn [fst snd] in Hfin.
    rewrite Hfin. reflexivity.
  - pose proof (wrapper_finally_after_empty (wrapper_except e w2) w2 Hcall
                  (wrapper_except_empty _ _ Hcall)) as Hfin.
    destruct (wrapper_except e w2) as [w3 pending]. cbn [fst snd] in Hfin.
    rewrite Hfin. reflexivity.
Qed.

Lemma run_traced_slot_empty name ty func (k : pyval -> prog) w :
  (forall v w', _current_step (xray w') = None ->
                _current_step (xray (fst (run (k v) w'))) = None) ->
  _current_step (xray (fst (run (Traced name ty func [] [] k) w))) = None.
Proof.
  intros Hk. simpl.
  pose proof (wrapper_slot_empty name ty (run (func [] [])) [] [] [] w eq_refl) as Hslot.
  destruct (wrapper name ty (run (func [] [])) [] [] w) as [w1 [v|e]]; simpl in *.
  - apply Hk, Hslot.
  - exact Hslot.
Qed.

(** ** Plain bodies keep the step open *)

Lemma same_step_refl (a : XRayStep) : same_step a a.
Proof. destruct a. reflexivity. Qed.

Lemma plain_keeps_step p :
  plain p -> forall w st,
  _current_step (xray w) = Some st ->
  exists st', _current_step (xray (fst (run p w))) = Some st' /\ same_step st st'.
Proof.
  induction 1 as [v | e | trace_name k Hk IH | reasoning k Hk IH | body handler Hb IHb Hh IHh];
    intros w st Hslot; cbn [run].
  - exists st. split; [exact Hslot | apply same_step_refl].
  - exists st. split; [exact Hslot | apply same_step_refl].
  - apply IH. exact Hslot.
  - unfold add_reasoning. rewrite Hslot.
    destruct (IH (with_step w (Some (XRayStep_add_reasoning st reasoning)))
                (XRayStep_add_reasoning st reasoning) eq_refl) as (st' & Hst' & Hsame).
    exists st'. split; [exact Hst'|]. rewrite <- Hsame. reflexivity.
  - destruct (IHb w st Hslot) as (st1 & Hst1 & Hsame1).
    destruct (run body w) as [w1 [v|e]]; cbn [fst] in Hst1.
    + exists st1. split; [exact Hst1 | exact Hsame1].
    + destruct (IHh e w1 st1 Hst1) as (st2 & Hst2 & Hsame2).
      exists st2. split; [exact Hst2|]. rewrite <- Hsame2, <- Hsame1. reflexivity.
Qed.

(** Where the wrapper is transparent: around a plain body whose return
    value the sanitizer accepts. The caller gets the body's own outcome. *)
Lemma wrapper_transparent_on_plain name ty func args kwargs input_data w :
  _capture_input args kwargs = Ok input_data ->
  plain (func args kwargs) ->
  (forall v, snd (run (func args kwargs) (opened name ty input_data w)) = Returned v ->
             exists j, _make_json_safe v = Ok j) ->
  snd (wrapper name ty (run (func args kwargs)) args kwargs w)
  = snd (run (func args kwargs) (opened name ty input_data w)).
Proof.
  intros Hcap Hplain Hsafe. unfold wrapper, wrapper_open. rewrite Hcap.
  fold (opened name ty input_data w).
  destruct (plain_keeps_step _ Hplain (opened name ty input_data w) _ eq_refl)
    as (st' & Hst' & _).
  destruct (run (func args kwargs) (opened name ty input_data w)) as [w2 [v|e]];
    cbn [fst snd] in *.
  - destruct (Hsafe v eq_refl) as [j Hj].
    unfold wrapper_returned. rewrite Hj, Hst'.
    unfold wrapper_finally. cbn [xray _current_step with_step with_xray]. reflexivity.
  - unfold wrapper_except. rewrite Hst'. destruct (is_Exception e).
    + unfold wrapper_finally. cbn [xray _current_step with_step with_xray]. reflexivity.
    + unfold wrapper_finally. rewrite Hst'. reflexivity.
Qed.

(** A plain body that raises [e], an instance of [Exception], while a
    trace is active: the step is appended to the trace with
    [success = false], the message of [e] and an empty output, the slot is
    emptied and [e] reaches the caller. *)
Lemma wrapper_records_failure_of_plain name ty func args kwargs input_data w w2 e tid trace :
  _capture_input args kwargs = Ok input_data ->
  plain (func args kwargs) ->
  run (func args kwargs) (opened name ty input_data w) = (w2, Raised e) ->
  is_Exception e = true ->
  active_id (xray w2) = Some tid ->
  traces (xray w2) !! tid = Some trace ->
  let after := wrapper name ty (run (func args kwargs)) args kwargs w in
  snd after = Raised e
  /\ _current_step (xray (fst after)) = None
  /\ exists d, traces (xray (fst after)) !! tid = Some (append_step trace d)
               /\ sd_name d = name
               /\ sd_success d = false
               /\ sd_error d = Some (exn_str e)
               /\ sd_output d = [].
Proof.
  intros Hcap Hplain Hrun Hexc Hact Htr after. subst after.
  unfold wrapper, wrapper_open. rewrite Hcap. fold (opened name ty input_data w).
  destruct (plain_keeps_step _ Hplain (opened name ty input_data w) _ eq_refl)
    as (st' & Hst' & Hsame).
  rewrite Hrun in *. cbn [fst] in Hst'.
  unfold wrapper_except. rewrite Hexc, Hst'.
  unfold wrapper_finally. cbn [xray _current_step with_step with_xray tick current_trace_id traces].
  change (active_id _) with (active_id (xray w2)). rewrite Hact, Htr.
  cbn [fst snd xray _current_step with_step with_xray with_traces traces].
  rewrite lookup_insert_eq. repeat split.
  eexists. split; [reflexivity|]. rewrite <- Hsame. repeat split.
Qed.

(** ** C1: reasoning attached twice to an open step *)

(** C1 (the code departs from it). With a step open, [add_reasoning] hands
    the text to [XRayStep.add_reasoning], which assigns it: after attaching
    [t1] and then [t2] the step's reasoning is [t2] alone, whatever the step
    and the texts, so the first text is overwritten and not joined with the
    second by a line break. *)
Theorem add_reasoning_open_step_overwrites (w : World) (st : XRayStep) (t1 t2 : string) :
  let w1 := fst (add_reasoning t1 (with_step w (Some st))) in
  let w2 := fst (add_reasoning t2 w1) in
  step_reasoning <$> _current_step (xray w2) = Some t2.
Proof. reflexivity. Qed.

(** ** C2: transparency of the wrapper *)

(** C2 (the code departs from it). An instrumented function whose body
    calls another instrumented function and returns its result: the inner
    wrapper empties the slot, the outer one then finds [None] in it, and
    the caller observes AttributeError from the wrapper, from every state
    and whatever the inner function does, also when it returns a value. *)
Theorem nested_call_raises_AttributeError (w : World) (outer ty inner ty' : string)
    (func : list pyval -> list (string * pyval) -> prog) :
  snd (run (Traced outer ty (fun _ _ => Traced inner ty' func [] [] Return) [] [] Return) w)
  = Raised (AttributeError "end").
Proof.
  cbn [run].
  pose proof (wrapper_after_slot_emptied outer ty
                (run (Traced inner ty' func [] [] Return)) [] [] [] w eq_refl) as H.
  cbn [run] in H.
  match type of H with ?P -> _ => assert (Hin : P) end.
  { intros w1. apply (run_traced_slot_empty inner ty' func Return w1). intros v w' Hw'. exact Hw'. }
  specialize (H Hin).
  destruct (wrapper outer ty _ [] [] w) as [w' [v|e]]; simpl in *; [discriminate | exact H].
Qed.

(** The same without nesting: a function that returns a dict with a key
    whose [__str__] raises. The call succeeded, the wrapper's own
    sanitizing raises, and the caller gets that exception. *)
Lemma wrapper_raises_on_unsanitizable_result (w : World) (name ty cls : string)
    (e : exn) (v : pyval) :
  snd (run (Traced name ty (fun _ _ => Return (PDict [(KObj cls (Err e), v)])) [] [] Return) w)
  = Raised e.
Proof. destruct e; reflexivity. Qed.

(** ** C3: what [_capture_input] records for the first positional argument *)

(** C3 (the code departs from it). The test for a receiver,
    [hasattr(args[0], '__class__')], holds of every object: whatever the
    only positional argument of a call is, it is recorded as the receiver,
    under [self] and by the name of its class, and is not sanitized; a
    function called with an integer gets [int object] recorded and the
    integer itself nowhere. *)
Theorem capture_input_takes_first_argument_for_receiver :
  (forall a0 : pyval,
     _capture_input [a0] [] = Ok [("self", JStr (class_name a0 +:+ " object"))])
  /\ (forall z : Z, _capture_input [PNum (NInt z)] [] = Ok [("self", JStr "int object")])
  /\ (forall s : string, _capture_input [PStr s] [] = Ok [("self", JStr "str object")]).
Proof. repeat split. Qed.

(** With a receiver in front, as in a call of a decorated method, the
    receiver is recorded by the name of its class and the arguments after
    it under [arg_1], [arg_2], ... and under the keywords. *)
Lemma capture_input_of_method (cls : string) (r : result string) (rest : list pyval)
    (kwargs : list (string * pyval)) :
  _capture_input (PObj cls r :: rest) kwargs
  = rbind (capture_args 1 rest [("self", JStr (cls +:+ " object"))])
          (fun input_data => capture_kwargs kwargs input_data).
Proof. reflexivity. Qed.

(** ** C4: a wrapped call that raises *)

Lemma wrapper_after_slot_emptied_state name ty call args kwargs input_data w :
  _capture_input args kwargs = Ok input_data ->
  (forall w1, _current_step (xray (fst (call w1))) = None) ->
  fst (wrapper name ty call args kwargs w) = fst (call (opened name ty input_data w)).
Proof.
  intros Hcap Hcall. unfold wrapper, wrapper_open. rewrite Hcap.
  fold (opened name ty input_data w).
  specialize (Hcall (opened name ty input_data w)).
  destruct (call (opened name ty input_data w)) as [w2 [res|e]]; simpl in Hcall.
  - pose proof (wrapper_finally_after_empty (wrapper_returned res w2) w2 Hcall
                  (wrapper_returned_empty _ _ Hcall)) as Hfin.
    destruct (wrapper_returned res w2) as [w3 pending]. cbn [fst snd] in Hfin.
    rewrite Hfin. reflexivity.
  - pose proof (wrapper_finally_after_empty (wrapper_except e w2) w2 Hcall
                  (wrapper_except_empty _ _ Hcall)) as Hfin.
    destruct (wrapper_except e w2) as [w3 pending]. cbn [fst snd] in Hfin.
    rewrite Hfin. reflexivity.
Qed.

(** C4 (the code departs from it). An instrumented function that calls
    another instrumented function and then raises [e]: the outer wrapper
    finds the slot emptied by the inner one, so the caller observes
    AttributeError in place of [e], and the wrapper leaves the tracer as the
    body left it: no step with [success = false] and the message of [e] is
    recorded for the call. *)
Theorem failure_after_nested_call_is_lost (w : World) (outer ty inner ty' : string)
    (func : list pyval -> list (string * pyval) -> prog) (e : exn) :
  let body := Traced inner ty' func [] [] (fun _ => Raise e) in
  run (Traced outer ty (fun _ _ => body) [] [] Return) w
  = (fst (run body (opened outer ty [] w)), Raised (AttributeError "end")).
Proof.
  intros body.
  assert (Hbody : forall w1, _current_step (xray (fst (run body w1))) = None).
  { intros w1. apply run_traced_slot_empty. intros v w' Hw'. exact Hw'. }
  pose proof (wrapper_after_slot_emptied outer ty (run body) [] [] [] w eq_refl Hbody) as Hout.
  pose proof (wrapper_after_slot_emptied_state outer ty (run body) [] [] [] w eq_refl Hbody)
    as Hst.
  cbn [run]. fold body.
  destruct (wrapper outer ty (run body) [] [] w) as [w' [v|e']];
    cbn [fst snd] in Hout, Hst.
  - discriminate.
  - rewrite Hout, Hst. reflexivity.
Qed.

(** ** C5: what [end_trace] computes and stores *)

Lemma save_to_file_xray tid w : xray (_save_to_file tid w) = xray w.
Proof.
  unfold _save_to_file. destruct (traces (xray w) !! tid); [|reflexivity].
  destruct (can_write _); reflexivity.
Qed.

Lemma step_json_duration (d : StepDict) : record_duration_ms (step_json d) = sd_duration_ms d.
Proof. unfold step_json, record_duration_ms. destruct (sd_reasoning d); reflexivity. Qed.

Lemma map_step_json_duration (steps : list StepDict) :
  map record_duration_ms (map step_json steps) = map sd_duration_ms steps.
Proof.
  induction steps as [|d steps IH]; [reflexivity|].
  cbn [map]. rewrite step_json_duration, IH. reflexivity.
Qed.


(** With no trace active [end_trace] returns [None] and changes nothing. *)
Lemma end_trace_inactive (w : World) :
  active_id (xray w) = None -> end_trace w = (w, Returned None).
Proof. intros Hact. unfold end_trace. rewrite Hact. reflexivity. Qed.

(** ** C6: the sanitizer *)

(** Induction on a value with the hypothesis for every item of a list, a
    tuple or a dict. *)
Lemma pyval_nested_ind (P : pyval -> Prop) :
  P PNone -> (forall b, P (PBool b)) -> (forall n, P (PNum n)) -> (forall s, P (PStr s)) ->
  (forall l, Forall P l -> P (PList l)) ->
  (forall l, Forall P l -> P (PTuple l)) ->
  (forall d, Forall (fun kv => P (snd kv)) d -> P (PDict d)) ->
  (forall cls r, P (PObj cls r)) ->
  forall v, P v.
Proof.
  intros HNone HBool HNum HStr HList HTuple HDict HObj.
  fix IH 1. intros [| b | n | s | l | l | d | cls r].
  - exact HNone.
  - apply HBool.
  - apply HNum.
  - apply HStr.
  - apply HList. induction l as [|x l IHl]; constructor; [apply IH | exact IHl].
  - apply HTuple. induction l as [|x l IHl]; constructor; [apply IH | exact IHl].
  - apply HDict. induction d as [|[k x] d IHd]; constructor; [apply IH | exact IHd].
  - apply HObj.
Qed.

Lemma list_comprehension_total (l : list pyval) :
  Forall (fun v => keys_render v = true -> exists j, _make_json_safe v = Ok j) l ->
  forallb keys_render l = true ->
  exists js, list_comprehension _make_json_safe l = Ok js.
Proof.
  induction 1 as [|v l Hv Hl IH]; cbn [forallb list_comprehension]; intros Hk.
  - eexists; reflexivity.
  - apply andb_prop in Hk as [Hkv Hkl].
    destruct (Hv Hkv) as [j ->]. destruct (IH Hkl) as [js ->]. eexists; reflexivity.
Qed.

Lemma dict_comprehension_total (d : list (pykey * pyval)) :
  Forall (fun kv => keys_render (snd kv) = true -> exists j, _make_json_safe (snd kv) = Ok j) d ->
  forallb (fun kv : pykey * pyval =>
             match key_str (fst kv) with
             | Ok _ => keys_render (snd kv)
             | Err _ => false
             end) d = true ->
  forall acc, exists jd, dict_comprehension key_str _make_json_safe d acc = Ok jd.
Proof.
  induction 1 as [|[k v] d Hv Hd IH]; cbn [forallb dict_comprehension fst snd]; intros Hk acc.
  - eexists; reflexivity.
  - apply andb_prop in Hk as [Hkv Hkd]. cbn [fst snd] in Hv.
    destruct (key_str k) as [ks|]; [|discriminate].
    destruct (Hv Hkv) as [j ->]. cbn [rbind]. apply IH, Hkd.
Qed.

(** Where the sanitizer is total: on every value in which [str] answers
    for all the dict keys. *)
Lemma make_json_safe_total (v : pyval) :
  keys_render v = true -> exists j, _make_json_safe v = Ok j.
Proof.
  induction v as [| b | n | s | l IH | l IH | d IH | cls r] using pyval_nested_ind;
    cbn [keys_render _make_json_safe]; intros Hk; try (eexists; reflexivity).
  - destruct (list_comprehension_total l IH Hk) as [js ->]. eexists; reflexivity.
  - destruct (list_comprehension_total l IH Hk) as [js ->]. eexists; reflexivity.
  - destruct (dict_comprehension_total d IH Hk []) as [jd ->]. eexists; reflexivity.
  - destruct r; eexists; reflexivity.
Qed.

(** The rules for [None] and the scalars. *)
Lemma make_json_safe_scalars (b : bool) (n : pynum) (s : string) :
  _make_json_safe PNone = Ok JNull
  /\ _make_json_safe (PBool b) = Ok (JBool b)
  /\ _make_json_safe (PNum n) = Ok (JNum n)
  /\ _make_json_safe (PStr s) = Ok (JStr s).
Proof. repeat split. Qed.

(** A sequence is mapped item by item, in order. *)
Lemma make_json_safe_list (l : list pyval) (js : list json) :
  Forall2 (fun v j => _make_json_safe v = Ok j) l js ->
  _make_json_safe (PList l) = Ok (JList js) /\ _make_json_safe (PTuple l) = Ok (JList js).
Proof.
  intros H.
  assert (Hitems : list_comprehension _make_json_safe l = Ok js).
  { induction H as [|v j l js Hv Hl IH]; [reflexivity|].
    cbn [list_comprehension]. rewrite Hv, IH. reflexivity. }
  cbn [_make_json_safe]. rewrite Hitems. split; reflexivity.
Qed.

Lemma str_take_length (n : nat) (s : string) : (String.length (str_take n s) <= n)%nat.
Proof.
  unfold str_take. revert s. induction n as [|n IH]; intros [|c s]; cbn; try lia.
  specialize (IH s). lia.
Qed.

(** Any other object: its rendering cut to 150 characters, or the
    placeholder with the name of its class when rendering raises. *)
Lemma make_json_safe_object (cls : string) (r : result string) :
  exists text,
    _make_json_safe (PObj cls r) = Ok (JStr text)
    /\ match r with
       | Ok s => text = str_take 150 s /\ (String.length text <= 150)%nat
       | Err _ => text = "Object of type " +:+ cls
       end.
Proof.
  destruct r as [s|e]; eexists; (split; [reflexivity|]).
  - split; [reflexivity | apply str_take_length].
  - reflexivity.
Qed.

(** C6 (the code departs from it). In the dict branch [str(k)] is outside
    any [try]: a dict with a key whose [__str__] raises makes
    [_make_json_safe] raise that exception. *)
Theorem make_json_safe_raises_on_key (cls : string) (e : exn) (v : pyval)
    (rest : list (pykey * pyval)) :
  _make_json_safe (PDict ((KObj cls (Err e), v) :: rest)) = Err e.
Proof. reflexivity. Qed.

(** ** C7: reasoning attached after the step has closed *)

Lemma update_last_snoc {A} (f : A -> A) (pre : list A) (x : A) :
  update_last f (pre ++ [x]) = (pre ++ [f x])%list.
Proof.
  induction pre as [|y pre IH]; [reflexivity|].
  cbn [app update_last]. rewrite IH. destruct pre; reflexivity.
Qed.

(** C7 (the code departs from it in the join). With no step open and the
    active trace ending in a closed step [d], [add_reasoning] changes
    [d] alone, no step is added and the steps before it stay; but the text
    is joined to the reasoning [d] has with a line break whenever the key
    is there, and [to_dict] always puts it there: a step closed with the
    empty reasoning ends up with a line break followed by the text. *)
Theorem add_reasoning_closed_step_always_joins (w : World) (tid : string) (trace : Trace)
    (pre : list StepDict) (d : StepDict) (old text : string) :
  _current_step (xray w) = None ->
  active_id (xray w) = Some tid ->
  traces (xray w) !! tid = Some trace ->
  tr_steps trace = (pre ++ [d])%list ->
  sd_reasoning d = Some old ->
  add_reasoning text w
  = (with_traces w
       (<[tid := set_steps trace
                   (pre ++ [set_sd_reasoning d (Some (old +:+ newline +:+ text))])]>
          (traces (xray w))),
     Returned ()).
Proof.
  intros Hslot Hact Htr Hsteps Hold. unfold add_reasoning.
  rewrite Hslot, Hact, Htr, Hsteps.
  assert (Hne : exists x r, (pre ++ [d])%list = x :: r) by (destruct pre; eauto).
  destruct Hne as (x & r & Heq). rewrite Heq. cbv iota. rewrite <- Heq.
  rewrite update_last_snoc. unfold append_reasoning. rewrite Hold. reflexivity.
Qed.

(** Without a closed step to attach to, nothing changes. *)
Lemma add_reasoning_no_step (w : World) (text : string) :
  _current_step (xray w) = None ->
  (active_id (xray w) = None \/
   exists tid trace, active_id (xray w) = Some tid
                     /\ traces (xray w) !! tid = Some trace /\ tr_steps trace = []) ->
  add_reasoning text w = (w, Returned ()).
Proof.
  intros Hslot H. unfold add_reasoning. rewrite Hslot.
  destruct H as [-> | (tid & trace & -> & -> & ->)]; reflexivity.
Qed.

(** ** C8: listing skips a record that cannot be read *)

Lemma str_app_cons (c : ascii) (a b : string) : String c a +:+ b = String c (a +:+ b).
Proof. reflexivity. Qed.

Lemma str_app_assoc (a b c : string) : (a +:+ b) +:+ c = a +:+ (b +:+ c).
Proof.
  induction a as [|x a IH]; [reflexivity|].
  rewrite !str_app_cons, IH. reflexivity.
Qed.

Lemma str_length_app (a b : string) :
  String.length (a +:+ b) = (String.length a + String.length b)%nat.
Proof.
  induction a as [|c a IH]; [reflexivity|].
  rewrite str_app_cons. cbn [String.length]. rewrite IH. reflexivity.
Qed.

Lemma str_app_inj_r (suffix a b : string) : a +:+ suffix = b +:+ suffix -> a = b.
Proof.
  revert b. induction a as [|c a IH]; intros [|c' b] H.
  - reflexivity.
  - apply (f_equal String.length) in H. change ("" +:+ suffix) with suffix in H.
    rewrite str_app_cons in H. cbn [String.length] in H. rewrite str_length_app in H. lia.
  - apply (f_equal String.length) in H. change ("" +:+ suffix) with suffix in H.
    rewrite str_app_cons in H. cbn [String.length] in H. rewrite str_length_app in H. lia.
  - rewrite !str_app_cons in H. injection H as -> H. rewrite (IH b H). reflexivity.
Qed.

Lemma trace_file_inj (i j : string) : trace_file i = trace_file j -> i = j.
Proof.
  unfold trace_file. intros H. apply (String.app_inj "trace_") in H.
  apply (str_app_inj_r ".json"), H.
Qed.

Lemma endswith_app (suffix a : string) : endswith suffix (a +:+ suffix) = true.
Proof.
  induction a as [|c a IH].
  - change ("" +:+ suffix) with suffix.
    destruct suffix; cbn [endswith]; rewrite String.eqb_refl; reflexivity.
  - rewrite str_app_cons. cbn [endswith]. rewrite IH. apply orb_true_r.
Qed.

Lemma is_trace_file_trace_file (i : string) : is_trace_file (trace_file i) = true.
Proof.
  unfold is_trace_file, trace_file. apply andb_true_intro. split.
  - unfold startswith. cbv [String.append]. cbn. fold String.append.
    destruct (i +:+ ".json"); reflexivity.
  - rewrite <- str_app_assoc. apply endswith_app.
Qed.

(** Sorting a list whose keys are all strings never raises and only
    reorders. *)
Lemma insert_by_perm key x sorted :
  string_key key x -> Forall (string_key key) sorted ->
  exists l, insert_by key x sorted = Ok l /\ l ≡ₚ x :: sorted.
Proof.
  intros [tx Hx] Hall. induction Hall as [|y r [ty Hy] Hr IH].
  - exists [x]. split; reflexivity.
  - cbn [insert_by]. unfold py_lt. rewrite Hx, Hy. cbn [rbind].
    destruct (String.ltb ty tx).
    + destruct IH as (l & -> & Hperm). cbn [rbind].
      exists (y :: l). split; [reflexivity|]. rewrite Hperm. apply Permutation_swap.
    + exists (x :: y :: r). split; reflexivity.
Qed.

Lemma sort_by_perm key l :
  Forall (string_key key) l -> exists l', sort_by key l = Ok l' /\ l' ≡ₚ l.
Proof.
  induction 1 as [|x r Hx Hr IH].
  - exists []. split; reflexivity.
  - destruct IH as (r' & Hsort & Hperm). cbn [sort_by]. rewrite Hsort. cbn [rbind].
    assert (Hr' : Forall (string_key key) r') by (rewrite Hperm; exact Hr).
    destruct (insert_by_perm key x r' Hx Hr') as (l & -> & Hl).
    exists l. split; [reflexivity|]. rewrite Hl, Hperm. reflexivity.
Qed.

Lemma sort_reverse_perm key l :
  Forall (string_key key) l -> exists l', sort_reverse key l = Ok l' /\ l' ≡ₚ l.
Proof.
  intros Hall. unfold sort_reverse.
  assert (Hrev : Forall (string_key key) (rev l)) by (rewrite <- Permutation_rev; exact Hall).
  destruct (sort_by_perm key (rev l) Hrev) as (l' & -> & Hperm). cbn [rbind].
  exists (rev l'). split; [reflexivity|].
  rewrite <- Permutation_rev, Hperm, <- Permutation_rev. reflexivity.
Qed.

Lemma well_formed_summary (d : gmap string fcontent) (file : string) (t : jdict) :
  well_formed_trace t = true ->
  d !! file = Some (FJson (JDict t)) ->
  summary_of_file d file = Some (expected_summary t).
Proof.
  unfold well_formed_trace, summary_of_file, expected_summary, summary_keys. intros Hwf ->.
  cbn [map]. unfold dict_get_default.
  well_formed_fields t Hwf. reflexivity.
Qed.

Lemma well_formed_start_time (t : jdict) :
  well_formed_trace t = true -> string_key start_time_key (expected_summary t).
Proof.
  unfold well_formed_trace, string_key, start_time_key, expected_summary, summary_keys.
  cbn. unfold dict_get_default. intros Hwf.
  well_formed_fields t Hwf. eauto.
Qed.

Lemma saved_file_names (traces : list jdict) :
  (map saved_file traces).*1 = map (fun t => trace_file (trace_record_id t)) traces.
Proof. induction traces as [|t traces IH]; [reflexivity|]. cbn. rewrite <- IH. reflexivity. Qed.

Lemma saved_file_names_NoDup (traces : list jdict) :
  NoDup (map trace_record_id traces) ->
  NoDup (map (fun t => trace_file (trace_record_id t)) traces).
Proof.
  induction traces as [|t traces IH]; cbn [map]; intros Hnd; [constructor|].
  apply NoDup_cons in Hnd as [Hnotin Hnd]. apply NoDup_cons. split; [|apply IH, Hnd].
  intros Hin. apply Hnotin.
  apply list_elem_of_In, in_map_iff in Hin as (t' & Heq & Hin).
  apply trace_file_inj in Heq. rewrite <- Heq.
  apply list_elem_of_In, in_map. exact Hin.
Qed.

Lemma omap_cons_eq {A B} (f : A -> option B) (x : A) (l : list A) :
  omap f (x :: l) = match f x with Some y => y :: omap f l | None => omap f l end.
Proof. reflexivity. Qed.

(** The fields of a summary are those of its record. *)
Lemma expected_summary_fields (t : jdict) (key : string) :
  well_formed_trace t = true -> key ∈ summary_keys ->
  dict_get key (expected_summary t) = dict_get key t.
Proof.
  unfold well_formed_trace, expected_summary, summary_keys, dict_get_default.
  intros Hwf Hkey.
  repeat (apply elem_of_cons in Hkey as [-> | Hkey]);
    [| | | | | apply elem_of_nil in Hkey; contradiction];
    cbn; well_formed_fields t Hwf; reflexivity.
Qed.

(** What the loop of [_send_trace_list] makes of the saved files. *)
Lemma summaries_of_saved (d : gmap string fcontent) (traces : list jdict) :
  Forall (fun t => well_formed_trace t = true) traces ->
  (forall t, t ∈ traces -> d !! trace_file (trace_record_id t) = Some (FJson (JDict t))) ->
  omap (fun file => if is_trace_file file then summary_of_file d file else None)
       (map (fun t => trace_file (trace_record_id t)) traces)
  = map expected_summary traces.
Proof.
  intros Hwf. induction Hwf as [|t traces Ht Hwf IH]; intros Hd; [reflexivity|].
  cbn [map]. rewrite omap_cons_eq, is_trace_file_trace_file.
  rewrite (well_formed_summary d _ t Ht (Hd t ltac:(left))).
  f_equal. apply IH. intros t' Hin. apply Hd. right. exact Hin.
Qed.

(** C8. A directory holding [N] well-formed trace records with distinct
    ids, each in its file, and one more file that does not hold a JSON
    object: the listing answers 200 with exactly [N] summaries, which are,
    in some order, the summaries of the records; each summary has the id,
    name, start time, [total_steps] and [total_duration_ms] of a record, and
    the unreadable file is skipped. *)
Theorem list_skips_unreadable_record (traces : list jdict) (bad : string)
    (content : fcontent) :
  Forall (fun t => well_formed_trace t = true) traces ->
  NoDup (map trace_record_id traces) ->
  holds_dict content = false ->
  bad ∉ map (fun t => trace_file (trace_record_id t)) traces ->
  exists summaries,
    _send_trace_list (store_with bad content traces)
    = JsonResponse 200 (JList (map JDict summaries))
    /\ length summaries = length traces
    /\ summaries ≡ₚ map expected_summary traces
    /\ (forall s, s ∈ summaries ->
          exists t, t ∈ traces
                    /\ forall key, key ∈ summary_keys -> dict_get key s = dict_get key t).
Proof.
  intros Hwf Hnd Hbad Hfresh.
  set (files := map saved_file traces).
  set (d := store_with bad content traces).
  assert (Hnames : NoDup files.*1).
  { subst files. rewrite saved_file_names. apply saved_file_names_NoDup, Hnd. }
  assert (Hnone : (list_to_map files : gmap string fcontent) !! bad = None).
  { apply not_elem_of_list_to_map. subst files. rewrite saved_file_names. exact Hfresh. }
  assert (Hdir : listdir d ≡ₚ bad :: map (fun t => trace_file (trace_record_id t)) traces).
  { unfold listdir, d, store_with. fold files.
    rewrite (map_to_list_insert _ _ _ Hnone). cbn [fmap list_fmap fst].
    rewrite (map_to_list_to_map _ Hnames). subst files. rewrite saved_file_names.
    reflexivity. }
  assert (Hlook : forall t, t ∈ traces ->
                    d !! trace_file (trace_record_id t) = Some (FJson (JDict t))).
  { intros t Hin. unfold d, store_with. fold files. rewrite lookup_insert_ne.
    - apply elem_of_list_to_map; [exact Hnames|].
      subst files. apply list_elem_of_In, in_map_iff. exists t.
      split; [reflexivity | apply list_elem_of_In, Hin].
    - intros ->. apply Hfresh. apply list_elem_of_In, in_map_iff. exists t.
      split; [reflexivity | apply list_elem_of_In, Hin]. }
  assert (Hskip : (if is_trace_file bad then summary_of_file d bad else None) = None).
  { destruct (is_trace_file bad); [|reflexivity].
    unfold summary_of_file, d, store_with. rewrite lookup_insert_eq.
    destruct content as [[]|]; try reflexivity. discriminate. }
  assert (Hsum : omap (fun file => if is_trace_file file then summary_of_file d file else None)
                   (listdir d) ≡ₚ map expected_summary traces).
  { rewrite Hdir, omap_cons_eq, Hskip, (summaries_of_saved d traces Hwf Hlook).
    reflexivity. }
  assert (Hkeys : Forall (string_key start_time_key)
                    (omap (fun file => if is_trace_file file then summary_of_file d file
                                       else None) (listdir d))).
  { rewrite Hsum. apply Forall_forall. intros s Hs.
    apply list_elem_of_In, in_map_iff in Hs as (t & <- & Hin).
    apply well_formed_start_time. rewrite Forall_forall in Hwf.
    apply Hwf, list_elem_of_In, Hin. }
  destruct (sort_reverse_perm _ _ Hkeys) as (summaries & Hsort & Hperm).
  exists summaries. split; [|split; [|split]].
  - unfold _send_trace_list. fold d. rewrite Hsort. reflexivity.
  - rewrite Hperm, Hsum. apply length_map.
  - rewrite Hperm. exact Hsum.
  - intros s Hs. rewrite Hperm, Hsum in Hs.
    apply list_elem_of_In, in_map_iff in Hs as (t & <- & Hin).
    apply list_elem_of_In in Hin. exists t. split; [exact Hin|].
    intros key Hkey. apply expected_summary_fields; [|exact Hkey].
    rewrite Forall_forall in Hwf. apply Hwf, Hin.
Qed.

(** ** C9: a submitted trace is fetched back unchanged *)

Lemma cut_at_absent c s : has_char c s = false -> cut_at c s = s.
Proof.
  induction s as [|c' s IH]; [reflexivity|]. cbn [has_char cut_at].
  destruct (Ascii.eqb c c'); [discriminate|]. cbn [orb].
  intros H. rewrite (IH H). reflexivity.
Qed.

Lemma cut_params_absent s : has_char ";" s = false -> cut_params s = s.
Proof.
  induction s as [|c s IH]; [reflexivity|]. cbn [has_char cut_params].
  rewrite Ascii.eqb_sym. destruct (Ascii.eqb c ";"); [discriminate|]. cbn [orb].
  intros H. rewrite (IH H). destruct (has_char "/" s); reflexivity.
Qed.

Lemma str_split_absent sep s : has_char sep s = false -> str_split sep s = [s].
Proof.
  induction s as [|c s IH]; [reflexivity|]. cbn [has_char str_split].
  rewrite Ascii.eqb_sym. destruct (Ascii.eqb c sep); [discriminate|]. cbn [orb].
  intros H. rewrite (IH H). reflexivity.
Qed.

Lemma url_safe_chars s :
  url_safe s = true ->
  has_char "/" s = false /\ has_char "?" s = false
  /\ has_char "#" s = false /\ has_char ";" s = false.
Proof.
  unfold url_safe.
  destruct (has_char "/" s), (has_char "?" s), (has_char "#" s), (has_char ";" s);
    cbn; intros H; try discriminate; repeat split.
Qed.

(** Routing of [GET /api/trace/<id>]. *)
Lemma do_GET_trace (trace_id : string) (d : gmap string fcontent) :
  url_safe trace_id = true ->
  do_GET ("/api/trace/" +:+ trace_id) d = _send_single_trace trace_id d.
Proof.
  intros Hsafe. destruct (url_safe_chars _ Hsafe) as (Hslash & Hq & Hh & Hsemi).
  unfold do_GET.
  assert (Hpath : urlparse_path ("/api/trace/" +:+ trace_id) = "/api/trace/" +:+ trace_id).
  { unfold urlparse_path. cbv [String.append]. cbn.
    rewrite (cut_at_absent _ _ Hh), (cut_at_absent _ _ Hq), Hslash,
      (cut_params_absent _ Hsemi). reflexivity. }
  rewrite Hpath. cbv [String.append]. cbn. rewrite (str_split_absent _ _ Hslash).
  destruct trace_id; reflexivity.
Qed.


(** ** C10: the active id is a key of the trace table *)

Lemma active_id_current x tid : active_id x = Some tid -> current_trace_id x = Some tid.
Proof.
  unfold active_id. destruct (current_trace_id x) as [t|]; [|discriminate].
  destruct (String.eqb t ""); [discriminate | congruence].
Qed.

Lemma active_id_nonempty x tid : active_id x = Some tid -> tid <> "".
Proof.
  unfold active_id. destruct (current_trace_id x) as [t|]; [|discriminate].
  destruct (String.eqb_spec t ""); [discriminate | congruence].
Qed.

Lemma active_id_intro x tid :
  current_trace_id x = Some tid -> tid <> "" -> active_id x = Some tid.
Proof.
  intros Hcur Hne. unfold active_id. rewrite Hcur.
  destruct (String.eqb_spec tid ""); [contradiction | reflexivity].
Qed.

Lemma active_lookup w tid :
  tracer_inv w -> active_id (xray w) = Some tid -> is_Some (traces (xray w) !! tid).
Proof.
  intros [Hk _] Hact. apply active_id_current in Hact.
  unfold active_trace_known in Hk. rewrite Hact in Hk. apply Hk.
Qed.

Lemma current_is_active w tid :
  tracer_inv w -> current_trace_id (xray w) = Some tid -> active_id (xray w) = Some tid.
Proof.
  intros [Hk _] Hcur. unfold active_trace_known in Hk. rewrite Hcur in Hk.
  apply active_id_intro; [exact Hcur | apply Hk].
Qed.

Lemma known_after_update w tid (t : Trace) :
  active_trace_known w ->
  active_trace_known (with_traces w (<[tid := t]> (traces (xray w)))).
Proof.
  unfold active_trace_known. simpl.
  destruct (current_trace_id (xray w)) as [cur|]; [|trivial].
  intros [Hne Hk]. split; [exact Hne|].
  rewrite lookup_insert. case_decide; [eexists; reflexivity | exact Hk].
Qed.

Lemma inv_with_step w o : tracer_inv w -> tracer_inv (with_step w o).
Proof. intros [Hk He]. split; [exact Hk | exact He]. Qed.

Lemma inv_tick n w : tracer_inv w -> tracer_inv (tick n w).
Proof. intros [Hk He]. split; [exact Hk | exact He]. Qed.

Lemma inv_update w tid t :
  tracer_inv w -> tracer_inv (with_traces w (<[tid := t]> (traces (xray w)))).
Proof. intros [Hk He]. split; [apply known_after_update, Hk | exact He]. Qed.

Lemma inv_init files : tracer_inv (init_world files).
Proof. split; [exact I | reflexivity]. Qed.

#[local] Hint Resolve inv_with_step inv_tick inv_update inv_init : tracer.

Lemma inv_start_trace trace_name w :
  tracer_inv w -> tracer_inv (fst (start_trace trace_name w)).
Proof.
  intros [_ He]. split; [|exact He].
  unfold active_trace_known. simpl. rewrite lookup_insert_eq.
  split; [discriminate | eexists; reflexivity].
Qed.

Lemma add_reasoning_returns reasoning w :
  tracer_inv w -> snd (add_reasoning reasoning w) = Returned ().
Proof.
  intros Hinv. unfold add_reasoning.
  destruct (_current_step (xray w)); [reflexivity|].
  destruct (active_id (xray w)) as [tid|] eqn:Hact; [|reflexivity].
  destruct (active_lookup _ _ Hinv Hact) as [tr ->].
  destruct (tr_steps tr); reflexivity.
Qed.

Lemma inv_add_reasoning reasoning w :
  tracer_inv w -> tracer_inv (fst (add_reasoning reasoning w)).
Proof.
  intros Hinv. unfold add_reasoning.
  destruct (_current_step (xray w)); [auto with tracer|].
  destruct (active_id (xray w)) as [tid|] eqn:Hact; [|exact Hinv].
  destruct (active_lookup _ _ Hinv Hact) as [tr ->].
  destruct (tr_steps tr); [exact Hinv | apply inv_update, Hinv].
Qed.

Lemma inv_save_to_file tid w : tracer_inv w -> tracer_inv (_save_to_file tid w).
Proof.
  intros Hinv. unfold _save_to_file.
  destruct (traces (xray w) !! tid); [|exact Hinv].
  destruct (can_write _); [|exact Hinv].
  destruct Hinv as [Hk He]. split; [exact Hk | exact He].
Qed.

Lemma end_trace_returns w :
  tracer_inv w -> snd (end_trace w) = Returned (active_id (xray w)).
Proof.
  intros Hinv. unfold end_trace.
  destruct (active_id (xray w)) as [tid|] eqn:Hact; [|reflexivity].
  destruct (active_lookup _ _ Hinv Hact) as [tr ->]. reflexivity.
Qed.

Lemma inv_end_trace w : tracer_inv w -> tracer_inv (fst (end_trace w)).
Proof.
  intros Hinv. unfold end_trace.
  destruct (active_id (xray w)) as [tid|] eqn:Hact; [|exact Hinv].
  destruct (active_lookup _ _ Hinv Hact) as [tr ->]. cbn [fst].
  match goal with |- context [_save_to_file tid ?w1] =>
    assert (Hs : tracer_inv (_save_to_file tid w1))
      by (apply inv_save_to_file, inv_tick, inv_update, Hinv);
    destruct Hs as [_ He] end.
  split; [exact I | exact He].
Qed.

Lemma inv_wrapper_except e w : tracer_inv w -> tracer_inv (fst (wrapper_except e w)).
Proof.
  intros Hinv. unfold wrapper_except.
  destruct (is_Exception e); [|exact Hinv].
  destruct (_current_step (xray w)); auto with tracer.
Qed.

Lemma inv_wrapper_returned res w : tracer_inv w -> tracer_inv (fst (wrapper_returned res w)).
Proof.
  intros Hinv. unfold wrapper_returned.
  destruct (_make_json_safe res); [|apply inv_wrapper_except, Hinv].
  destruct (_current_step (xray w)) eqn:Hslot; [auto with tracer|].
  apply inv_wrapper_except, Hinv.
Qed.

Lemma inv_wrapper_finally pending w : tracer_inv w -> tracer_inv (fst (wrapper_finally pending w)).
Proof.
  intros Hinv. unfold wrapper_finally.
  destruct (_current_step (xray w)); [|exact Hinv].
  cbn [fst]. apply inv_with_step.
  destruct (active_id (xray (tick 1 w))) as [tid|]; [|apply inv_tick, Hinv].
  destruct (traces (xray (tick 1 w)) !! tid); [|apply inv_tick, Hinv].
  apply (inv_update (tick 1 w)), inv_tick, Hinv.
Qed.

Lemma inv_wrapper name ty call args kwargs w :
  (forall w1, tracer_inv w1 -> tracer_inv (fst (call w1))) ->
  tracer_inv w -> tracer_inv (fst (wrapper name ty call args kwargs w)).
Proof.
  intros Hcall Hinv. unfold wrapper, wrapper_open.
  destruct (_capture_input args kwargs) as [input_data|e].
  - match goal with |- context [call ?w1] =>
      assert (H1 : tracer_inv w1) by (apply inv_with_step, inv_tick, inv_with_step, Hinv);
      specialize (Hcall w1 H1); destruct (call w1) as [w2 [res|e]] end; simpl in Hcall.
    + pose proof (inv_wrapper_returned res w2 Hcall) as H3.
      destruct (wrapper_returned res w2) as [w3 pending]. apply inv_wrapper_finally, H3.
    + pose proof (inv_wrapper_except e w2 Hcall) as H3.
      destruct (wrapper_except e w2) as [w3 pending]. apply inv_wrapper_finally, H3.
  - cbn [fst]. apply inv_tick, inv_with_step, Hinv.
Qed.

(** Pipeline code, however it nests and whatever it catches, keeps the
    invariant. *)
Lemma inv_run p : forall w, tracer_inv w -> tracer_inv (fst (run p w)).
Proof.
  induction p as [v | e | trace_name k IH | k IH | reasoning k IH
                 | name ty func IHf args kwargs k IHk | body IHb handler IHh];
    intros w Hinv; cbn [run].
  - exact Hinv.
  - exact Hinv.
  - pose proof (inv_start_trace trace_name w Hinv) as H1.
    destruct (start_trace trace_name w) as [w1 tid]. apply IH, H1.
  - pose proof (inv_end_trace w Hinv) as H1.
    destruct (end_trace w) as [w1 [r|e]]; [apply IH, H1 | exact H1].
  - pose proof (inv_add_reasoning reasoning w Hinv) as H1.
    destruct (add_reasoning reasoning w) as [w1 [r|e]]; [apply IH, H1 | exact H1].
  - pose proof (inv_wrapper name ty (run (func args kwargs)) args kwargs w
                  (IHf args kwargs) Hinv) as H1.
    destruct (wrapper name ty (run (func args kwargs)) args kwargs w) as [w1 [v|e]];
      [apply IHk, H1 | exact H1].
  - pose proof (IHb w Hinv) as H1.
    destruct (run body w) as [w1 [v|e]]; [exact H1 | apply IHh, H1].
Qed.

(** C10. Every state reached from the initial one by pipeline code (any
    sequence and nesting of [start_trace], instrumented calls,
    [add_reasoning] and [end_trace], with or without exception handlers)
    has [current_trace_id] absent or a key of [traces]; no lookup in the
    table raised KeyError on the way, and none does in [add_reasoning] or
    [end_trace] called next; after [end_trace] the active slot is empty and
    the trace that was active is still in the table. *)
Theorem current_trace_id_in_table (files : gmap string fcontent) (p : prog) :
  let w := fst (run p (init_world files)) in
  (current_trace_id (xray w) = None \/
   exists tid, current_trace_id (xray w) = Some tid /\ is_Some (traces (xray w) !! tid))
  /\ key_errors w = []
  /\ (forall reasoning, snd (add_reasoning reasoning w) = Returned ()
                        /\ key_errors (fst (add_reasoning reasoning w)) = [])
  /\ snd (end_trace w) = Returned (active_id (xray w))
  /\ key_errors (fst (end_trace w)) = []
  /\ current_trace_id (xray (fst (end_trace w))) = None
  /\ (forall tid, active_id (xray w) = Some tid ->
                  exists t, traces (xray (fst (end_trace w))) !! tid = Some t
                            /\ tr_end_time t <> None).
Proof.
  intros w. assert (Hinv : tracer_inv w) by apply inv_run, inv_init.
  repeat split.
  - destruct Hinv as [Hk _]. unfold active_trace_known in Hk.
    destruct (current_trace_id (xray w)) as [tid|]; [right | left; reflexivity].
    exists tid. split; [reflexivity | apply Hk].
  - apply Hinv.
  - apply add_reasoning_returns, Hinv.
  - apply inv_add_reasoning, Hinv.
  - apply end_trace_returns, Hinv.
  - apply inv_end_trace, Hinv.
  - unfold end_trace.
    destruct (active_id (xray w)) as [tid|] eqn:Hact.
    + destruct (active_lookup _ _ Hinv Hact) as [tr ->]. reflexivity.
    + cbn [fst]. destruct (current_trace_id (xray w)) as [t|] eqn:Hcur; [|reflexivity].
      rewrite (current_is_active _ _ Hinv Hcur) in Hact. discriminate.
  - intros tid Hact. unfold end_trace. rewrite Hact.
    destruct (active_lookup _ _ Hinv Hact) as [tr Htr]. rewrite Htr. cbn [fst xray traces].
    rewrite save_to_file_xray. cbn [xray traces tick with_traces with_xray].
    rewrite lookup_insert_eq. eexists. split; [reflexivity | discriminate].
Qed.

End Properties.

(** * Further properties of the engine *)

Section EngineProperties.
Context {F : FloatOps} {E : Environment}.

(** A property of the state that the three operations and the wrapper
    keep is kept by pipeline code as a whole. *)
Lemma run_invariant (P : World -> Prop) :
  (forall trace_name w, P w -> P (fst (start_trace trace_name w))) ->
  (forall reasoning w, P w -> P (fst (add_reasoning reasoning w))) ->
  (forall w, P w -> P (fst (end_trace w))) ->
  (forall name ty call args kwargs w,
     (forall w1, P w1 -> P (fst (call w1))) ->
     P w -> P (fst (wrapper name ty call args kwargs w))) ->
  forall p w, P w -> P (fst (run p w)).
Proof.
  intros Hstart Hadd Hend Hwrap.
  induction p as [v | e | trace_name k IH | k IH | reasoning k IH
                 | name ty func IHf args kwargs k IHk | body IHb handler IHh];
    intros w Hw; cbn [run].
  - exact Hw.
  - exact Hw.
  - specialize (Hstart trace_name w Hw).
    destruct (start_trace trace_name w) as [w1 tid]. apply IH, Hstart.
  - specialize (Hend w Hw). destruct (end_trace w) as [w1 [r|e]]; [apply IH|]; exact Hend.
  - specialize (Hadd reasoning w Hw).
    destruct (add_reasoning reasoning w) as [w1 [r|e]]; [apply IH|]; exact Hadd.
  - specialize (Hwrap name ty (run (func args kwargs)) args kwargs w (IHf args kwargs) Hw).
    destruct (wrapper name ty (run (func args kwargs)) args kwargs w) as [w1 [v|e]];
      [apply IHk|]; exact Hwrap.
  - specialize (IHb w Hw). destruct (run body w) as [w1 [v|e]]; [|apply IHh]; exact IHb.
Qed.

(** The same from the parts of the wrapper, for properties that hold at
    every point inside it. *)
Lemma run_preserves (P : World -> Prop) :
  (forall trace_name w, P w -> P (fst (start_trace trace_name w))) ->
  (forall reasoning w, P w -> P (fst (add_reasoning reasoning w))) ->
  (forall w, P w -> P (fst (end_trace w))) ->
  (forall name ty args kwargs w, P w -> P (fst (wrapper_open name ty args kwargs w))) ->
  (forall res w, P w -> P (fst (wrapper_returned res w))) ->
  (forall e w, P w -> P (fst (wrapper_except e w))) ->
  (forall pending w, P w -> P (fst (wrapper_finally pending w))) ->
  forall p w, P w -> P (fst (run p w)).
Proof.
  intros Hstart Hadd Hend Hopen Hret Hexc Hfin.
  apply run_invariant; try assumption.
  intros name ty call args kwargs w Hcall Hw. unfold wrapper.
  specialize (Hopen name ty args kwargs w Hw).
  destruct (wrapper_open name ty args kwargs w) as [w1 [u|e]]; [|exact Hopen].
  cbn [fst] in Hopen. specialize (Hcall w1 Hopen).
  destruct (call w1) as [w2 [res|e]]; cbn [fst] in Hcall.
  - specialize (Hret res w2 Hcall). destruct (wrapper_returned res w2) as [w3 pending].
    apply Hfin, Hret.
  - specialize (Hexc e w2 Hcall). destruct (wrapper_except e w2) as [w3 pending].
    apply Hfin, Hexc.
Qed.

(** ** The trace table only grows *)

Lemma traces_kept_by_parts (w0 : World) :
  let P w := dom (traces (xray w0)) ⊆ dom (traces (xray w)) in
  (forall trace_name w, P w -> P (fst (start_trace trace_name w)))
  /\ (forall reasoning w, P w -> P (fst (add_reasoning reasoning w)))
  /\ (forall w, P w -> P (fst (end_trace w)))
  /\ (forall name ty args kwargs w, P w -> P (fst (wrapper_open name ty args kwargs w)))
  /\ (forall res w, P w -> P (fst (wrapper_returned res w)))
  /\ (forall e w, P w -> P (fst (wrapper_except e w)))
  /\ (forall pending w, P w -> P (fst (wrapper_finally pending w))).
Proof.
  intros P. subst P. cbv beta. repeat split.
  - intros trace_name w Hw. cbn. rewrite dom_insert_L. set_solver.
  - intros reasoning w Hw. unfold add_reasoning.
    repeat case_match; cbn; try exact Hw. rewrite dom_insert_L. set_solver.
  - intros w Hw. unfold end_trace. repeat case_match; cbn; try exact Hw.
    rewrite save_to_file_xray. cbn. rewrite dom_insert_L. set_solver.
  - intros name ty args kwargs w Hw. unfold wrapper_open. case_match; exact Hw.
  - intros res w Hw. unfold wrapper_returned, wrapper_except.
    repeat case_match; exact Hw.
  - intros e w Hw. unfold wrapper_except. repeat case_match; exact Hw.
  - intros pending w Hw. unfold wrapper_finally. repeat case_match; cbn; try exact Hw.
    rewrite dom_insert_L. set_solver.
Qed.

(** X1. No pipeline code removes a trace from the in-memory table:
    whatever is run, with any nesting and any exception, every id that was
    a key of [traces] before is a key afterwards. *)
Theorem traces_never_removed (p : prog) (w : World) :
  dom (traces (xray w)) ⊆ dom (traces (xray (fst (run p w)))).
Proof.
  destruct (traces_kept_by_parts w) as (H1 & H2 & H3 & H4 & H5 & H6 & H7).
  apply (run_preserves _ H1 H2 H3 H4 H5 H6 H7). reflexivity.
Qed.

(** ** The engine writes trace files only *)

Lemma disk_kept_by_parts (file : string) (w0 : World) :
  is_trace_file file = false ->
  let P w := disk w !! file = disk w0 !! file in
  (forall trace_name w, P w -> P (fst (start_trace trace_name w)))
  /\ (forall reasoning w, P w -> P (fst (add_reasoning reasoning w)))
  /\ (forall w, P w -> P (fst (end_trace w)))
  /\ (forall name ty args kwargs w, P w -> P (fst (wrapper_open name ty args kwargs w)))
  /\ (forall res w, P w -> P (fst (wrapper_returned res w)))
  /\ (forall e w, P w -> P (fst (wrapper_except e w)))
  /\ (forall pending w, P w -> P (fst (wrapper_finally pending w))).
Proof.
  intros Hfile P. subst P. cbv beta. repeat split.
  - intros trace_name w Hw. exact Hw.
  - intros reasoning w Hw. unfold add_reasoning. repeat case_match; exact Hw.
  - intros w Hw. unfold end_trace, _save_to_file. repeat case_match; cbn; try exact Hw;
      (rewrite lookup_insert_ne; [exact Hw|]);
      intros Heq; rewrite <- Heq, is_trace_file_trace_file in Hfile; discriminate.
  - intros name ty args kwargs w Hw. unfold wrapper_open. case_match; exact Hw.
  - intros res w Hw. unfold wrapper_returned, wrapper_except. repeat case_match; exact Hw.
  - intros e w Hw. unfold wrapper_except. repeat case_match; exact Hw.
  - intros pending w Hw. unfold wrapper_finally. repeat case_match; exact Hw.
Qed.

(** X2. The engine touches no file but trace files: whatever pipeline code
    is run, a file whose name does not start with [trace_] and end with
    [.json] is afterwards as it was before, present or absent. *)
Theorem other_files_untouched (p : prog) (w : World) (file : string) :
  is_trace_file file = false ->
  disk (fst (run p w)) !! file = disk w !! file.
Proof.
  intros Hfile.
  destruct (disk_kept_by_parts file w Hfile) as (H1 & H2 & H3 & H4 & H5 & H6 & H7).
  apply (run_preserves _ H1 H2 H3 H4 H5 H6 H7). reflexivity.
Qed.

(** ** What the trace table holds *)

Lemma append_reasoning_ok (reasoning : string) (d : StepDict) :
  step_record_ok d -> step_record_ok (append_reasoning reasoning d).
Proof.
  intros [Hr Hd]. unfold append_reasoning.
  destruct (sd_reasoning d); (split; [discriminate | exact Hd]).
Qed.

Lemma Forall_update_last {A} (P : A -> Prop) (f : A -> A) (l : list A) :
  (forall x, P x -> P (f x)) -> Forall P l -> Forall P (update_last f l).
Proof.
  intros Hf. induction 1 as [|x l Hx Hl IH]; [constructor|].
  destruct l as [|y l]; cbn [update_last]; constructor; auto.
Qed.

Lemma table_ok_update (w : World) (tid : string) (trace : Trace) :
  table_ok w -> tr_id trace = tid -> Forall step_record_ok (tr_steps trace) ->
  table_ok (with_traces w (<[tid := trace]> (traces (xray w)))).
Proof.
  intros [Htab Hslot] Hid Hsteps. split; [|exact Hslot].
  intros tid' trace'. cbn. rewrite lookup_insert. case_decide.
  - intros [= <-]. subst. split; [reflexivity | exact Hsteps].
  - apply Htab.
Qed.

Lemma table_ok_with_step (w : World) (o : option XRayStep) :
  table_ok w -> (forall st, o = Some st -> step_pristine st) -> table_ok (with_step w o).
Proof. intros [Htab _] Ho. split; [exact Htab | exact Ho]. Qed.

Lemma table_ok_tick (n : nat) (w : World) : table_ok w -> table_ok (tick n w).
Proof. intros [Htab Hslot]. split; [exact Htab | exact Hslot]. Qed.

Lemma table_ok_start_trace trace_name w :
  table_ok w -> table_ok (fst (start_trace trace_name w)).
Proof.
  intros [Htab Hslot]. split; [|exact Hslot].
  intros tid trace. cbn. rewrite lookup_insert. case_decide.
  - intros [= <-]. subst tid. split; [reflexivity | constructor].
  - apply Htab.
Qed.

Lemma table_ok_add_reasoning reasoning w :
  table_ok w -> table_ok (fst (add_reasoning reasoning w)).
Proof.
  intros Hok. unfold add_reasoning.
  destruct (_current_step (xray w)) as [st|] eqn:Hst.
  - apply table_ok_with_step; [exact Hok|]. intros st' [= <-].
    destruct Hok as [_ Hslot]. apply (Hslot st Hst).
  - destruct (active_id (xray w)) as [tid|]; [|exact Hok].
    destruct (traces (xray w) !! tid) as [trace|] eqn:Htr; [|exact Hok].
    destruct (tr_steps trace) as [|d steps] eqn:Hsteps; [exact Hok|].
    destruct (proj1 Hok tid trace Htr) as [Hid Hall].
    apply table_ok_update; [exact Hok | exact Hid |].
    apply Forall_update_last; [apply append_reasoning_ok|].
    rewrite <- Hsteps. exact Hall.
Qed.

Lemma table_ok_end_trace w : table_ok w -> table_ok (fst (end_trace w)).
Proof.
  intros Hok. unfold end_trace.
  destruct (active_id (xray w)) as [tid|]; [|exact Hok].
  destruct (traces (xray w) !! tid) as [trace|] eqn:Htr; [|exact Hok].
  destruct (proj1 Hok tid trace Htr) as [Hid Hall]. cbn [fst].
  split; [|discriminate].
  cbn [xray traces with_xray]. rewrite save_to_file_xray.
  apply (table_ok_tick 1), (table_ok_update w tid (finalize trace _) Hok Hid Hall).
Qed.

Lemma table_ok_wrapper_finally pending w st :
  table_ok (with_step w None) ->
  _current_step (xray w) = Some st ->
  step_record_ok (to_dict (XRayStep_end st (time_time (ticks w)))) ->
  table_ok (fst (wrapper_finally pending w)).
Proof.
  intros [Htab _] Hst Hrec. unfold wrapper_finally. rewrite Hst. cbn [fst].
  split; [|intros st' Hst'; discriminate Hst'].
  intros tid' trace'. cbn [with_step with_xray xray traces].
  change (active_id (xray (tick 1 w))) with (active_id (xray w)).
  change (traces (xray (tick 1 w))) with (traces (xray w)).
  destruct (active_id (xray w)) as [tid|]; [|apply Htab].
  destruct (traces (xray w) !! tid) as [trace|] eqn:Htr; [|apply Htab].
  destruct (Htab tid trace Htr) as [Hid Hall].
  cbn. rewrite lookup_insert. case_decide; [|apply Htab].
  intros [= <-]. split; [cbn; congruence|].
  cbn. apply Forall_app. split; [exact Hall|].
  constructor; [exact Hrec | constructor].
Qed.

(** [except] and [finally] after a call that left its step in the slot:
    the step is recorded as a failure when [e] is an instance of
    [Exception], and as it stands otherwise. *)
Lemma table_ok_wrapper_except e w st :
  table_ok w -> _current_step (xray w) = Some st ->
  table_ok (fst (let '(w1, pending) := wrapper_except e w in wrapper_finally pending w1)).
Proof.
  intros Hok Hst. destruct (proj2 Hok st Hst) as (Hs & He & Ho).
  unfold wrapper_except. rewrite Hst. destruct (is_Exception e).
  - eapply table_ok_wrapper_finally; [| reflexivity |].
    + split; [exact (proj1 Hok) | discriminate].
    + split; [discriminate|]. right. cbn. rewrite Ho. repeat split. discriminate.
  - eapply table_ok_wrapper_finally; [| exact Hst |].
    + split; [exact (proj1 Hok) | discriminate].
    + split; [discriminate|]. left. cbn. rewrite Hs, He, Ho. repeat split. left. reflexivity.
Qed.

Lemma table_ok_wrapper name ty call args kwargs w :
  (forall w1, table_ok w1 -> table_ok (fst (call w1))) ->
  table_ok w -> table_ok (fst (wrapper name ty call args kwargs w)).
Proof.
  intros Hcall Hok. unfold wrapper, wrapper_open.
  assert (Hinit : step_pristine (XRayStep_init name ty (ticks w))) by (repeat split).
  destruct (_capture_input args kwargs) as [input_data|e].
  - match goal with |- context [call ?w1] =>
      assert (H1 : table_ok w1);
        [| specialize (Hcall w1 H1); destruct (call w1) as [w2 [res|e]] ] end.
    { apply table_ok_with_step; [apply table_ok_tick, table_ok_with_step;
        [exact Hok | intros st [= <-]; exact Hinit] | intros st [= <-]; exact Hinit]. }
    + cbn [fst] in Hcall. unfold wrapper_returned.
      destruct (_current_step (xray w2)) as [st|] eqn:Hst.
      * destruct (proj2 Hcall st Hst) as (Hs & He & Ho).
        destruct (_make_json_safe res) as [j|e].
        -- eapply table_ok_wrapper_finally; [| reflexivity |].
           ++ split; [exact (proj1 Hcall) | discriminate].
           ++ split; [discriminate|]. left. cbn. rewrite He. eauto.
        -- apply (table_ok_wrapper_except e w2 st Hcall Hst).
      * pose proof (wrapper_finally_after_empty (wrapper_returned res w2) w2 Hst
                      (wrapper_returned_empty _ _ Hst)) as Hfin.
        unfold wrapper_returned in Hfin. rewrite Hst in Hfin.
        destruct (_make_json_safe res);
          match type of Hfin with wrapper_finally (snd ?r) (fst ?r) = _ =>
            destruct r as [w3 pending] end;
          cbn [fst snd] in Hfin; rewrite Hfin; exact Hcall.
    + cbn [fst] in Hcall.
      destruct (_current_step (xray w2)) as [st|] eqn:Hst.
      * apply (table_ok_wrapper_except e w2 st Hcall Hst).
      * pose proof (wrapper_finally_after_empty (wrapper_except e w2) w2 Hst
                      (wrapper_except_empty _ _ Hst)) as Hfin.
        destruct (wrapper_except e w2) as [w3 pending].
        cbn [fst snd] in Hfin; rewrite Hfin; exact Hcall.
  - cbn [fst]. apply table_ok_tick, table_ok_with_step; [exact Hok|].
    intros st [= <-]. exact Hinit.
Qed.

Lemma table_ok_run (p : prog) (w : World) : table_ok w -> table_ok (fst (run p w)).
Proof.
  apply run_invariant.
  - apply table_ok_start_trace.
  - apply table_ok_add_reasoning.
  - apply table_ok_end_trace.
  - apply table_ok_wrapper.
Qed.

Lemma table_ok_init files : table_ok (init_world files).
Proof. split; [intros tid trace H; cbn in H; rewrite lookup_empty in H|]; discriminate. Qed.

(** X3. In every state reached from the initial one, each trace of the
    table is stored under its own id: the [id] inside a trace dict and the
    key it is found under never differ. *)
Theorem traces_keyed_by_their_id (files : gmap string fcontent) (p : prog) :
  map_Forall (fun tid trace => tr_id trace = tid)
             (traces (xray (fst (run p (init_world files))))).
Proof.
  intros tid trace Htr.
  apply (proj1 (table_ok_run p _ (table_ok_init files)) tid trace Htr).
Qed.

(** X4. In every state reached from the initial one, every recorded step
    has the [reasoning] key; a step with an error message is a failure and
    has no output; and the output of a step is either empty or the sanitized
    result alone, the latter only on a step that counts as a success and
    has no error. A success with an empty output is what an exception that
    is no instance of [Exception] (a [KeyboardInterrupt], say) leaves
    behind: [except Exception] lets it pass and [finally] records the step
    as it stands. *)
Theorem recorded_steps_consistent (files : gmap string fcontent) (p : prog) :
  map_Forall (fun _ trace =>
                Forall (fun d => sd_reasoning d <> None
                                 /\ (sd_error d <> None ->
                                     sd_success d = false /\ sd_output d = [])
                                 /\ (sd_output d = []
                                     \/ exists j, sd_output d = [("result", j)]
                                                  /\ sd_success d = true
                                                  /\ sd_error d = None))
                       (tr_steps trace))
             (traces (xray (fst (run p (init_world files))))).
Proof.
  intros tid trace Htr.
  destruct (proj1 (table_ok_run p _ (table_ok_init files)) tid trace Htr) as [_ Hall].
  eapply Forall_impl; [exact Hall|]. cbv beta.
  intros d [Hr [(Hs & He & Ho) | (Hs & He & Ho)]]; (split; [exact Hr|]).
  - split; [intros Hne; contradiction|].
    destruct Ho as [Ho|[j Ho]]; [left; exact Ho | right; eauto].
  - split; [intros _; split; assumption | left; exact Ho].
Qed.

(** ** One instrumented call, seen from its caller *)

(** What a plain body leaves in the slot: the step the wrapper opened, with
    the reasoning attached last. *)
Lemma plain_body_slot name ty (func : list pyval -> list (string * pyval) -> prog)
    (args : list pyval) (kwargs : list (string * pyval)) input_data w :
  plain (func args kwargs) ->
  exists st, _current_step (xray (fst (run (func args kwargs) (opened name ty input_data w))))
             = Some st
             /\ same_step (set_input (XRayStep_init name ty (ticks w)) input_data) st.
Proof.
  intros Hplain.
  apply (plain_keeps_step _ Hplain (opened name ty input_data w)). reflexivity.
Qed.

Lemma wrapper_finally_other_traces pending w tid other :
  active_id (xray w) = Some tid -> other <> tid ->
  traces (xray (fst (wrapper_finally pending w))) !! other = traces (xray w) !! other.
Proof.
  intros Hact Hne. unfold wrapper_finally.
  destruct (_current_step (xray w)); [|reflexivity]. cbn [fst].
  change (active_id (xray (tick 1 w))) with (active_id (xray w)). rewrite Hact.
  change (traces (xray (tick 1 w))) with (traces (xray w)).
  destruct (traces (xray w) !! tid); [|reflexivity].
  cbn. apply lookup_insert_ne. congruence.
Qed.

(** X5. An instrumented function with a plain body that returns [v] while
    a trace is active: the caller gets [v], the slot is emptied, and one
    step is appended to the active trace, carrying the name and type given
    to the decorator, the captured input, [{"result": sanitize(v)}] as
    output, [success = true] and no error; no other trace changes. *)
Theorem wrapper_records_success_of_plain name ty func args kwargs input_data
    w w2 v j tid trace :
  _capture_input args kwargs = Ok input_data ->
  plain (func args kwargs) ->
  run (func args kwargs) (opened name ty input_data w) = (w2, Returned v) ->
  _make_json_safe v = Ok j ->
  active_id (xray w2) = Some tid ->
  traces (xray w2) !! tid = Some trace ->
  let after := wrapper name ty (run (func args kwargs)) args kwargs w in
  snd after = Returned v
  /\ _current_step (xray (fst after)) = None
  /\ (exists d, traces (xray (fst after)) !! tid = Some (append_step trace d)
                /\ sd_name d = name /\ sd_step_type d = ty
                /\ sd_input d = input_data
                /\ sd_output d = [("result", j)]
                /\ sd_success d = true /\ sd_error d = None)
  /\ (forall other, other <> tid ->
        traces (xray (fst after)) !! other = traces (xray w2) !! other).
Proof.
  intros Hcap Hplain Hrun Hsafe Hact Htr after. subst after.
  destruct (plain_body_slot name ty func args kwargs input_data w Hplain)
    as (st & Hst & Hsame).
  unfold wrapper, wrapper_open. rewrite Hcap. fold (opened name ty input_data w).
  rewrite Hrun in *. cbn [fst] in Hst.
  unfold wrapper_returned. rewrite Hsafe, Hst.
  split; [reflexivity|]. split; [apply wrapper_finally_slot|]. split.
  - unfold wrapper_finally.
    cbn [xray _current_step with_step with_xray tick current_trace_id traces].
    change (active_id _) with (active_id (xray w2)). rewrite Hact, Htr.
    cbn [fst xray with_step with_xray with_traces traces].
    rewrite lookup_insert_eq. eexists. split; [reflexivity|].
    rewrite <- Hsame. repeat split.
  - intros other Hne.
    rewrite (wrapper_finally_other_traces _ _ tid other); [reflexivity | exact Hact | exact Hne].
Qed.

(** X6. The pattern of every step of the demo pipeline: the function
    attaches its reasoning and returns. With a trace active the recorded
    step carries that reasoning, and the sanitized return value. *)
Theorem reasoning_inside_call_is_recorded name ty args kwargs input_data w
    (reasoning : string) (v : pyval) (j : json) tid trace :
  _capture_input args kwargs = Ok input_data ->
  _make_json_safe v = Ok j ->
  active_id (xray w) = Some tid ->
  traces (xray w) !! tid = Some trace ->
  let after := run (Traced name ty (fun _ _ => AddReasoning reasoning (Return v))
                      args kwargs Return) w in
  snd after = Returned v
  /\ exists d, traces (xray (fst after)) !! tid = Some (append_step trace d)
               /\ sd_reasoning d = Some reasoning
               /\ sd_input d = input_data
               /\ sd_output d = [("result", j)]
               /\ sd_success d = true.
Proof.
  intros Hcap Hsafe Hact Htr after. subst after.
  cbn [run]. unfold wrapper, wrapper_open. rewrite Hcap.
  cbn [run add_reasoning with_step with_xray xray _current_step].
  unfold wrapper_returned. rewrite Hsafe.
  cbn [xray _current_step with_step with_xray].
  unfold wrapper_finally.
  cbn [xray _current_step with_step with_xray tick current_trace_id traces].
  change (active_id _) with (active_id (xray w)). rewrite Hact, Htr.
  cbn [fst snd xray with_step with_xray with_traces traces].
  split; [reflexivity|]. rewrite lookup_insert_eq.
  eexists. split; [reflexivity|]. repeat split.
Qed.


(** X8. When capturing the arguments raises (a dict argument with a key
    that does not render), the wrapped function is not called at all: the
    outcome does not depend on it, the exception reaches the caller, and
    the step just created stays in the open-step slot, unrecorded; a remark
    attached next goes to that stale step and to no trace. *)
Theorem capture_failure_skips_the_call name ty call args kwargs w e reasoning :
  _capture_input args kwargs = Err e ->
  let after := wrapper name ty call args kwargs w in
  snd after = Raised e
  /\ traces (xray (fst after)) = traces (xray w)
  /\ _current_step (xray (fst after)) = Some (XRayStep_init name ty (ticks w))
  /\ traces (xray (fst (add_reasoning reasoning (fst after)))) = traces (xray w)
  /\ (step_reasoning <$> _current_step (xray (fst (add_reasoning reasoning (fst after)))))
     = Some reasoning.
Proof.
  intros Hcap after. subst after. unfold wrapper, wrapper_open. rewrite Hcap.
  repeat split.
Qed.

(** ** Traces from start to end *)

Lemma start_trace_active trace_name w :
  active_id (xray (fst (start_trace trace_name w))) = Some (snd (start_trace trace_name w)).
Proof. reflexivity. Qed.

Lemma start_trace_lookup_new trace_name w :
  exists t, traces (xray (fst (start_trace trace_name w))) !! snd (start_trace trace_name w)
            = Some t
            /\ tr_name t = trace_name /\ tr_steps t = [] /\ tr_end_time t = None
            /\ tr_total_steps t = None.
Proof. cbn. rewrite lookup_insert_eq. eexists. repeat split. Qed.

Lemma start_trace_lookup_other trace_name w other :
  other <> snd (start_trace trace_name w) ->
  traces (xray (fst (start_trace trace_name w))) !! other = traces (xray w) !! other.
Proof.
  intros Hne. cbn. apply lookup_insert_ne.
  intros Heq. apply Hne. symmetry. exact Heq.
Qed.

Lemma start_trace_disk trace_name w : disk (fst (start_trace trace_name w)) = disk w.
Proof. reflexivity. Qed.

Lemma end_trace_active w tid trace :
  active_id (xray w) = Some tid -> traces (xray w) !! tid = Some trace ->
  snd (end_trace w) = Returned (Some tid)
  /\ active_id (xray (fst (end_trace w))) = None
  /\ traces (xray (fst (end_trace w)))
     = <[tid := finalize trace (datetime_now_isoformat (ticks w))]> (traces (xray w))
  /\ (forall file, file <> trace_file tid ->
        disk (fst (end_trace w)) !! file = disk w !! file).
Proof.
  intros Hact Htr. unfold end_trace. rewrite Hact, Htr. cbn [fst snd].
  split; [reflexivity|]. split; [reflexivity|]. split.
  - cbn [xray traces with_xray]. rewrite save_to_file_xray. reflexivity.
  - intros file Hne. cbn [disk with_xray]. unfold _save_to_file.
    cbn [xray traces tick with_traces with_xray]. rewrite lookup_insert_eq.
    destruct (can_write (trace_file tid)); [|reflexivity].
    cbn [disk]. apply lookup_insert_ne. congruence.
Qed.

(** X9. A trace that is overtaken by a second [start_trace] is never
    finalized: [end_trace] finalizes and saves the second trace only, the
    first stays in the table without [end_time] or totals, its file is not
    written, and no trace is active afterwards to end it later. *)
Theorem second_start_orphans_first (name1 name2 : string) (w : World) :
  let w1 := fst (start_trace name1 w) in
  let first := snd (start_trace name1 w) in
  let w2 := fst (start_trace name2 w1) in
  let second := snd (start_trace name2 w1) in
  let w3 := fst (end_trace w2) in
  first <> second ->
  snd (end_trace w2) = Returned (Some second)
  /\ active_id (xray w3) = None
  /\ (exists t, traces (xray w3) !! first = Some t
                /\ tr_name t = name1 /\ tr_end_time t = None /\ tr_total_steps t = None)
  /\ (exists t, traces (xray w3) !! second = Some t
                /\ tr_name t = name2 /\ tr_end_time t <> None)
  /\ disk w3 !! trace_file first = disk w !! trace_file first.
Proof.
  intros w1 first w2 second w3 Hne.
  destruct (start_trace_lookup_new name1 w) as (t1 & Ht1 & Hn1 & _ & He1 & Hs1).
  destruct (start_trace_lookup_new name2 w1) as (t2 & Ht2 & Hn2 & _).
  pose proof (start_trace_lookup_other name2 w1 first Hne) as Hother.
  pose proof (start_trace_disk name1 w) as Hd1.
  pose proof (start_trace_disk name2 w1) as Hd2.
  pose proof (start_trace_active name2 w1) as Hact.
  fold w1 first in Ht1, Hd1. fold w2 second in Ht2, Hother, Hd2, Hact.
  clearbody w1 first w2 second.
  destruct (end_trace_active w2 second t2 Hact Ht2) as (Hret & Hnone & Htab & Hdisk).
  subst w3. split; [exact Hret|]. split; [exact Hnone|]. rewrite Htab. split; [|split].
  - rewrite lookup_insert_ne by congruence. rewrite Hother, Ht1. eauto.
  - rewrite lookup_insert_eq. eexists. split; [reflexivity|]. split; [exact Hn2|discriminate].
  - rewrite Hdisk, Hd2, Hd1; [reflexivity|].
    intros Heq. apply Hne, trace_file_inj, Heq.
Qed.

(** X10. Ending twice: once [end_trace] has been called, with the active
    id in the table, a second call returns [None] and changes nothing. *)
Theorem end_trace_twice (w : World) :
  (forall tid, active_id (xray w) = Some tid -> is_Some (traces (xray w) !! tid)) ->
  end_trace (fst (end_trace w)) = (fst (end_trace w), Returned None).
Proof.
  intros Hknown. apply end_trace_inactive. unfold end_trace.
  destruct (active_id (xray w)) as [tid|] eqn:Hact; [|exact Hact].
  destruct (Hknown tid eq_refl) as [trace ->]. reflexivity.
Qed.

(** ** From the engine to the dashboard *)

(** X11. A trace ended by the engine can be fetched from the dashboard
    when it was written in full: if the file can be opened and [json.dump]
    writes the finalized trace to its end, [_send_single_trace] on the
    trace id answers 200 with that record, and so does
    [GET /api/trace/<id>] when the id can stand in a path. If [json.dump]
    raises part-way, the file is left unreadable and the request gets no
    answer: [json.load] raises in the handler. *)
Theorem ended_trace_can_be_fetched (w : World) (tid : string) (trace : Trace) :
  active_id (xray w) = Some tid ->
  traces (xray w) !! tid = Some trace ->
  can_write (trace_file tid) = true ->
  let d := disk (fst (end_trace w)) in
  let record := trace_json (finalize trace (datetime_now_isoformat (ticks w))) in
  (json_dump_ok record = true ->
     _send_single_trace tid d = JsonResponse 200 record
     /\ (url_safe tid = true -> do_GET ("/api/trace/" +:+ tid) d = JsonResponse 200 record))
  /\ (json_dump_ok record = false ->
        _send_single_trace tid d = Uncaught
        /\ (url_safe tid = true -> do_GET ("/api/trace/" +:+ tid) d = Uncaught)).
Proof.
  intros Hact Htr Hw d record.
  assert (Hd : d !! trace_file tid
               = Some (if json_dump_ok record then FJson record else FBad)).
  { subst d. unfold end_trace. rewrite Hact, Htr. cbn [fst disk with_xray].
    unfold _save_to_file. cbn [xray traces tick with_traces with_xray].
    rewrite lookup_insert_eq, Hw. apply lookup_insert_eq. }
  assert (Hget : _send_single_trace tid d
                 = if json_dump_ok record then JsonResponse 200 record else Uncaught).
  { unfold _send_single_trace. fold (trace_file tid). rewrite Hd.
    destruct (json_dump_ok record); reflexivity. }
  split; intros Hdump; rewrite Hdump in Hget;
    (split; [exact Hget|]); intros Hsafe; rewrite (do_GET_trace _ _ Hsafe); exact Hget.
Qed.

(** X12. A trace ended by the engine and written in full is listed by the
    dashboard: if the file can be opened and [json.dump] writes the
    finalized trace to its end, the file has a trace file's name and the
    summary read from it has the trace's id, name and start time, the
    number of its steps and the rounded sum of their durations; with
    nothing else in the directory the listing is that one summary. *)
Theorem ended_trace_is_listed (w : World) (tid : string) (trace : Trace) :
  active_id (xray w) = Some tid ->
  traces (xray w) !! tid = Some trace ->
  can_write (trace_file tid) = true ->
  json_dump_ok (trace_json (finalize trace (datetime_now_isoformat (ticks w)))) = true ->
  let d := disk (fst (end_trace w)) in
  let summary :=
    [("id", JStr (tr_id trace)); ("name", JStr (tr_name trace));
     ("start_time", JStr (tr_start_time trace));
     ("total_steps", JNum (NInt (Z.of_nat (length (tr_steps trace)))));
     ("total_duration_ms",
      JNum (num_round2 (py_sum (map sd_duration_ms (tr_steps trace)))))] in
  is_trace_file (trace_file tid) = true
  /\ summary_of_file d (trace_file tid) = Some summary
  /\ (disk w = ∅ -> _send_trace_list d = JsonResponse 200 (JList [JDict summary])).
Proof.
  intros Hact Htr Hw Hdump d summary.
  assert (Hd : d = <[trace_file tid :=
                      FJson (trace_json (finalize trace (datetime_now_isoformat (ticks w))))]>
                   (disk w)).
  { subst d. unfold end_trace. rewrite Hact, Htr. cbn [fst disk with_xray].
    unfold _save_to_file. cbn [xray traces tick with_traces with_xray].
    rewrite lookup_insert_eq, Hw, Hdump. reflexivity. }
  clearbody d.
  assert (Hsum : summary_of_file d (trace_file tid) = Some summary).
  { unfold summary_of_file. rewrite Hd, lookup_insert_eq. reflexivity. }
  split; [apply is_trace_file_trace_file|]. split; [exact Hsum|].
  intros Hempty. unfold _send_trace_list, listdir.
  assert (Hlist : map_to_list d = [(trace_file tid,
             FJson (trace_json (finalize trace (datetime_now_isoformat (ticks w)))))]).
  { rewrite Hd, Hempty, insert_empty. apply map_to_list_singleton. }
  rewrite Hlist. cbn [fmap list_fmap fst]. rewrite omap_cons_eq.
  rewrite is_trace_file_trace_file, Hsum. reflexivity.
Qed.

End EngineProperties.

(** * Further properties of the sanitizer and of the captured input *)

Section SanitizerProperties.
Context {F : FloatOps}.

(** ** Dicts as association lists *)

Lemma dict_get_set_eq {V} (k : string) (v : V) (d : list (string * V)) :
  dict_get k (dict_set k v d) = Some v.
Proof.
  induction d as [|[k' v'] d IH]; cbn [dict_set dict_get].
  - rewrite String.eqb_refl. reflexivity.
  - destruct (String.eqb k k') eqn:Hk; cbn [dict_get]; rewrite Hk; [reflexivity | exact IH].
Qed.

Lemma dict_get_set_ne {V} (k k' : string) (v : V) (d : list (string * V)) :
  k' <> k -> dict_get k' (dict_set k v d) = dict_get k' d.
Proof.
  intros Hne. induction d as [|[k0 v0] d IH]; cbn [dict_set dict_get].
  - destruct (String.eqb_spec k' k); [contradiction | reflexivity].
  - destruct (String.eqb_spec k k0) as [->|Hk0]; cbn [dict_get].
    + destruct (String.eqb_spec k' k0); [contradiction | reflexivity].
    + rewrite IH. reflexivity.
Qed.

Lemma dict_set_keys {V} (k : string) (v : V) (d : list (string * V)) (key : string) :
  key ∈ (dict_set k v d).*1 <-> key = k \/ key ∈ d.*1.
Proof.
  induction d as [|[k0 v0] d IH]; cbn [dict_set].
  - cbn. rewrite list_elem_of_singleton, elem_of_nil. tauto.
  - destruct (String.eqb_spec k k0) as [->|Hk0]; cbn; rewrite !elem_of_cons.
    + tauto.
    + rewrite IH. tauto.
Qed.

Lemma dict_set_NoDup {V} (k : string) (v : V) (d : list (string * V)) :
  NoDup d.*1 -> NoDup (dict_set k v d).*1.
Proof.
  induction d as [|[k0 v0] d IH]; cbn [dict_set]; intros Hnd.
  - cbn. apply NoDup_singleton.
  - cbn in Hnd. apply NoDup_cons in Hnd as [Hnotin Hnd].
    destruct (String.eqb_spec k k0) as [->|Hk0]; cbn; apply NoDup_cons.
    + split; assumption.
    + split; [|apply IH, Hnd]. rewrite dict_set_keys. intros [->|Hin]; contradiction.
Qed.

Lemma dict_set_length {V} (k : string) (v : V) (d : list (string * V)) :
  (length (dict_set k v d) <= S (length d))%nat.
Proof.
  induction d as [|[k0 v0] d IH]; cbn [dict_set]; [cbn; lia|].
  destruct (String.eqb k k0); cbn; lia.
Qed.

(** ** The dict branch of the sanitizer *)

Lemma dict_comprehension_keys (d : list (pykey * pyval)) :
  forall acc jd,
  dict_comprehension key_str _make_json_safe d acc = Ok jd ->
  NoDup acc.*1 ->
  NoDup jd.*1
  /\ (length jd <= length acc + length d)%nat
  /\ (forall key, key ∈ jd.*1 <->
        key ∈ acc.*1 \/ exists k v, (k, v) ∈ d /\ key_str k = Ok key).
Proof.
  induction d as [|[k v] d IH]; intros acc jd Hrun Hnd; cbn [dict_comprehension] in Hrun.
  - injection Hrun as <-. split; [exact Hnd|]. split; [lia|].
    intros key. split; [tauto|]. intros [H|(k & v & Hin & _)]; [exact H|].
    apply elem_of_nil in Hin. contradiction.
  - destruct (key_str k) as [ks|] eqn:Hks; [|discriminate].
    destruct (_make_json_safe v) as [jv|] eqn:Hjv; [|discriminate]. cbn [rbind] in Hrun.
    destruct (IH _ _ Hrun (dict_set_NoDup ks jv acc Hnd)) as (Hnd' & Hlen & Hkeys).
    split; [exact Hnd'|]. split.
    + pose proof (dict_set_length ks jv acc). cbn [length]. lia.
    + intros key. rewrite Hkeys, dict_set_keys. split.
      * intros [[-> | Hacc] | (k' & v' & Hin & Hk')].
        -- right. exists k, v. split; [left | exact Hks].
        -- left. exact Hacc.
        -- right. exists k', v'. split; [right; exact Hin | exact Hk'].
      * intros [Hacc | (k' & v' & Hin & Hk')].
        -- left. right. exact Hacc.
        -- apply elem_of_cons in Hin as [[= -> ->] | Hin].
           ++ left. left. congruence.
           ++ right. exists k', v'. split; assumption.
Qed.

(** X13. What the sanitizer makes of a dict is a proper JSON object: its
    keys are pairwise distinct, they are exactly the renderings [str(k)] of
    the keys of the input, and there are no more entries than the input
    has (fewer when two keys render alike, as [1] and ["1"] do). *)
Theorem sanitized_dict_keys (d : list (pykey * pyval)) (j : json) :
  _make_json_safe (PDict d) = Ok j ->
  exists jd, j = JDict jd
             /\ NoDup jd.*1
             /\ (length jd <= length d)%nat
             /\ (forall key, key ∈ jd.*1 <-> exists k v, (k, v) ∈ d /\ key_str k = Ok key).
Proof.
  cbn [_make_json_safe]. intros Hrun.
  destruct (dict_comprehension key_str _make_json_safe d []) as [jd|] eqn:Hjd;
    [|discriminate].
  injection Hrun as <-.
  destruct (dict_comprehension_keys d [] jd Hjd (NoDup_nil_2)) as (Hnd & Hlen & Hkeys).
  exists jd. split; [reflexivity|]. split; [exact Hnd|]. split; [exact Hlen|].
  intros key. rewrite Hkeys. split; [|right; assumption].
  intros [Hin|H]; [apply elem_of_nil in Hin; contradiction | exact H].
Qed.

(** ** The sequence branch *)

Lemma list_comprehension_inv (l : list pyval) (js : list json) :
  list_comprehension _make_json_safe l = Ok js ->
  Forall2 (fun v j => _make_json_safe v = Ok j) l js.
Proof.
  revert js. induction l as [|v l IH]; intros js; cbn [list_comprehension].
  - intros [= <-]. constructor.
  - destruct (_make_json_safe v) as [j|] eqn:Hj; [|discriminate]. cbn [rbind].
    destruct (list_comprehension _make_json_safe l) as [js'|]; [|discriminate].
    intros [= <-]. constructor; [exact Hj | apply IH; reflexivity].
Qed.

Lemma list_comprehension_first_error (pre : list pyval) (x : pyval) (rest : list pyval)
    (e : exn) :
  Forall (fun v => exists j, _make_json_safe v = Ok j) pre ->
  _make_json_safe x = Err e ->
  list_comprehension _make_json_safe (pre ++ x :: rest) = Err e.
Proof.
  intros Hpre Hx. induction Hpre as [|v pre [j Hv] Hpre IH]; cbn [app list_comprehension].
  - rewrite Hx. reflexivity.
  - rewrite Hv. cbn [rbind]. rewrite IH. reflexivity.
Qed.

(** X14. A list and a tuple with the same items are sanitized to the same
    JSON array. When the sanitizer answers, the array has one item per
    input item, each the sanitized form of the item at its position; when
    an item cannot be sanitized, the exception of the first such item is
    the one raised. *)
Theorem sanitized_sequence (l : list pyval) :
  _make_json_safe (PTuple l) = _make_json_safe (PList l)
  /\ (forall j, _make_json_safe (PList l) = Ok j ->
        exists js, j = JList js /\ length js = length l
                   /\ Forall2 (fun v j => _make_json_safe v = Ok j) l js)
  /\ (forall pre x rest e,
        l = (pre ++ x :: rest)%list ->
        Forall (fun v => exists j, _make_json_safe v = Ok j) pre ->
        _make_json_safe x = Err e ->
        _make_json_safe (PList l) = Err e).
Proof.
  split; [reflexivity|]. split.
  - intros j. cbn [_make_json_safe].
    destruct (list_comprehension _make_json_safe l) as [js|] eqn:Hjs; [|discriminate].
    intros [= <-]. apply list_comprehension_inv in Hjs.
    exists js. split; [reflexivity|]. split; [|exact Hjs].
    symmetry. eapply Forall2_length, Hjs.
  - intros pre x rest e -> Hpre Hx. cbn [_make_json_safe].
    rewrite (list_comprehension_first_error pre x rest e Hpre Hx). reflexivity.
Qed.

(** ** When the sanitizer raises *)

Lemma list_comprehension_ext {A B} (f g : A -> result B) (l : list A) :
  Forall (fun v => f v = g v) l -> list_comprehension f l = list_comprehension g l.
Proof.
  induction 1 as [|v l Hv Hl IH]; cbn [list_comprehension]; [reflexivity|].
  rewrite Hv, IH. reflexivity.
Qed.

Lemma dict_comprehension_ext {K A} (key : K -> result string) (f g : A -> result json)
    (d : list (K * A)) :
  Forall (fun kv => f (snd kv) = g (snd kv)) d ->
  forall acc, dict_comprehension key f d acc = dict_comprehension key g d acc.
Proof.
  induction 1 as [|[k v] d Hv Hd IH]; intros acc; cbn [dict_comprehension]; [reflexivity|].
  cbn [snd] in Hv. rewrite Hv. destruct (key k); [|reflexivity]. cbn [rbind].
  destruct (g v); [|reflexivity]. cbn [rbind]. apply IH.
Qed.

(** Items that answer or raise [e], one of them raising: the
    comprehension raises [e]. *)
Lemma list_comprehension_raises {A B} (f : A -> result B) (e : exn) (l : list A) :
  Forall (fun v => (exists j, f v = Ok j) \/ f v = Err e) l ->
  Exists (fun v => f v = Err e) l ->
  list_comprehension f l = Err e.
Proof.
  induction 1 as [|v l Hv Hl IH]; intros Hex; [inversion Hex|].
  cbn [list_comprehension]. destruct Hv as [[j Hj]|He]; [|rewrite He; reflexivity].
  rewrite Hj. cbn [rbind]. inversion Hex as [? ? Hhere|? ? Hlater]; subst; [congruence|].
  rewrite (IH Hlater). reflexivity.
Qed.

Lemma list_comprehension_fails {A B} (f : A -> result B) (l : list A) :
  Exists (fun v => exists e, f v = Err e) l -> exists e, list_comprehension f l = Err e.
Proof.
  induction 1 as [v l [e He]|v l Hl [e IH]]; cbn [list_comprehension].
  - rewrite He. eauto.
  - destruct (f v); [|eauto]. cbn [rbind]. rewrite IH. eauto.
Qed.

Lemma dict_comprehension_raises {K A} (key : K -> result string) (f : A -> result json)
    (e : exn) (d : list (K * A)) :
  Forall (fun kv => (exists ks, key (fst kv) = Ok ks)
                    /\ ((exists j, f (snd kv) = Ok j) \/ f (snd kv) = Err e)) d ->
  Exists (fun kv => f (snd kv) = Err e) d ->
  forall acc, dict_comprehension key f d acc = Err e.
Proof.
  induction 1 as [|[k v] d [[ks Hk] Hv] Hd IH]; intros Hex acc; [inversion Hex|].
  cbn [fst snd] in *. cbn [dict_comprehension]. rewrite Hk. cbn [rbind].
  destruct Hv as [[j Hj]|He]; [|rewrite He; reflexivity].
  rewrite Hj. cbn [rbind]. inversion Hex as [? ? Hhere|? ? Hlater]; subst.
  - cbn [snd] in Hhere. congruence.
  - apply (IH Hlater).
Qed.

Lemma dict_comprehension_fails {K A} (key : K -> result string) (f : A -> result json)
    (d : list (K * A)) :
  Exists (fun kv => (exists e, key (fst kv) = Err e) \/ exists e, f (snd kv) = Err e) d ->
  forall acc, exists e, dict_comprehension key f d acc = Err e.
Proof.
  induction 1 as [[k v] d Hkv|[k v] d Hd IH]; intros acc; cbn [dict_comprehension].
  - cbn [fst snd] in Hkv. destruct (key k) as [ks|e0]; [|eauto]. cbn [rbind].
    destruct Hkv as [[e He]|[e He]]; [discriminate|]. rewrite He. eauto.
  - destruct (key k); [|eauto]. cbn [rbind]. destruct (f v); [|eauto]. cbn [rbind]. apply IH.
Qed.

Lemma list_max_below {A} (h : A -> nat) (l : list A) (n : nat) :
  list_max (map h l) <= n -> Forall (fun x => h x <= n) l.
Proof.
  induction l as [|x l IH]; cbn [map list_max fold_right]; intros H; constructor.
  - lia.
  - apply IH. unfold list_max. lia.
Qed.

Lemma list_max_above {A} (h : A -> nat) (l : list A) (n : nat) :
  n < list_max (map h l) -> Exists (fun x => n < h x) l.
Proof.
  induction l as [|x l IH]; cbn [map list_max fold_right]; intros H; [lia|].
  destruct (Nat.lt_ge_cases n (h x)) as [Hx|Hx]; [left; exact Hx|].
  right. apply IH. unfold list_max. lia.
Qed.

Lemma forallb_false_Exists {A} (p : A -> bool) (l : list A) :
  forallb p l = false -> Exists (fun x => p x = false) l.
Proof.
  induction l as [|x l IH]; cbn [forallb]; [discriminate|].
  destruct (p x) eqn:Hx; cbn [andb]; [right; auto | left; exact Hx].
Qed.

(** The call for an item, one level down. *)
Lemma sanitize_item (depth : nat) (v : pyval) :
  (forall depth,
     (nesting v <= depth -> _make_json_safe_within depth v = _make_json_safe v)
     /\ (keys_render v = true -> depth < nesting v ->
         _make_json_safe_within depth v = Err RecursionError)
     /\ (keys_render v = false -> exists e, _make_json_safe_within depth v = Err e)) ->
  let call item := match depth with
                   | O => Err RecursionError
                   | S depth => _make_json_safe_within depth item
                   end in
  (S (nesting v) <= depth -> call v = _make_json_safe v)
  /\ (keys_render v = true -> (exists j, call v = Ok j) \/ call v = Err RecursionError)
  /\ (keys_render v = true -> depth < S (nesting v) -> call v = Err RecursionError)
  /\ (keys_render v = false -> exists e, call v = Err e).
Proof.
  intros IH call. subst call. destruct depth as [|n]; cbv beta iota.
  - split; [lia|]. split; [right; reflexivity|]. split; [reflexivity | eauto].
  - destruct (IH n) as (HA & HB & HC). split; [intros H; apply HA; lia|].
    split; [|split; [intros Hk H; apply HB; [exact Hk | lia] | exact HC]].
    intros Hk. destruct (Nat.le_gt_cases (nesting v) n) as [Hle|Hgt].
    + left. rewrite (HA Hle). apply make_json_safe_total, Hk.
    + right. apply HB; assumption.
Qed.

Lemma make_json_safe_within_cases :
  forall (v : pyval) depth,
    (nesting v <= depth -> _make_json_safe_within depth v = _make_json_safe v)
    /\ (keys_render v = true -> depth < nesting v ->
        _make_json_safe_within depth v = Err RecursionError)
    /\ (keys_render v = false -> exists e, _make_json_safe_within depth v = Err e).
Proof.
  assert (Hseq : forall l, Forall (fun v => forall depth,
              (nesting v <= depth -> _make_json_safe_within depth v = _make_json_safe v)
              /\ (keys_render v = true -> depth < nesting v ->
                  _make_json_safe_within depth v = Err RecursionError)
              /\ (keys_render v = false -> exists e, _make_json_safe_within depth v = Err e)) l ->
            forall depth,
            let call item := match depth with
                             | O => Err RecursionError
                             | S depth => _make_json_safe_within depth item
                             end in
            let n := match l with [] => 0 | _ => S (list_max (map nesting l)) end in
            (n <= depth -> list_comprehension call l = list_comprehension _make_json_safe l)
            /\ (forallb keys_render l = true -> depth < n ->
                list_comprehension call l = Err RecursionError)
            /\ (forallb keys_render l = false -> exists e, list_comprehension call l = Err e)).
  { intros l IH depth call n.
    assert (Hitems : Forall (fun v =>
              (S (nesting v) <= depth -> call v = _make_json_safe v)
              /\ (keys_render v = true -> (exists j, call v = Ok j) \/ call v = Err RecursionError)
              /\ (keys_render v = true -> depth < S (nesting v) -> call v = Err RecursionError)
              /\ (keys_render v = false -> exists e, call v = Err e)) l).
    { eapply Forall_impl; [exact IH|]. intros v Hv. apply (sanitize_item depth v Hv). }
    split; [|split].
    - intros Hn. apply list_comprehension_ext. destruct l as [|x l]; [constructor|].
      subst n. assert (Hmax : list_max (map nesting (x :: l)) <= pred depth) by lia.
      apply list_max_below in Hmax. rewrite Forall_forall in Hmax, Hitems |- *.
      intros v Hv. apply (Hitems v Hv). specialize (Hmax v Hv). lia.
    - intros Hk Hn. destruct l as [|x l]; [subst n; lia|]. subst n.
      rewrite forallb_forall in Hk. apply list_comprehension_raises.
      + rewrite Forall_forall in Hitems |- *. intros v Hv.
        apply (Hitems v Hv), Hk, list_elem_of_In, Hv.
      + destruct depth as [|m].
        * left. reflexivity.
        * assert (Hex : Exists (fun v => m < nesting v) (x :: l))
            by (apply list_max_above; lia).
          rewrite Exists_exists in Hex |- *. destruct Hex as (v & Hv & Hm).
          exists v. split; [exact Hv|]. rewrite Forall_forall in Hitems.
          apply (Hitems v Hv); [apply Hk, list_elem_of_In, Hv | lia].
    - intros Hk. apply list_comprehension_fails. apply forallb_false_Exists in Hk.
      rewrite Exists_exists in Hk |- *. destruct Hk as (v & Hv & Hkv).
      exists v. split; [exact Hv|]. rewrite Forall_forall in Hitems. apply (Hitems v Hv), Hkv. }
  intros v.
  induction v as [| b | n | s | l IH | l IH | d IH | cls r] using pyval_nested_ind;
    intros depth; try (cbn; repeat split; try reflexivity; try lia; discriminate).
  - destruct (Hseq l IH depth) as (HA & HB & HC). cbn [_make_json_safe_within _make_json_safe
      nesting keys_render]. split; [|split].
    + intros Hn. rewrite (HA Hn). reflexivity.
    + intros Hk Hn. rewrite (HB Hk Hn). reflexivity.
    + intros Hk. destruct (HC Hk) as [e ->]. eauto.
  - destruct (Hseq l IH depth) as (HA & HB & HC). cbn [_make_json_safe_within _make_json_safe
      nesting keys_render]. split; [|split].
    + intros Hn. rewrite (HA Hn). reflexivity.
    + intros Hk Hn. rewrite (HB Hk Hn). reflexivity.
    + intros Hk. destruct (HC Hk) as [e ->]. eauto.
  - set (call := fun item => match depth with
                             | O => Err RecursionError
                             | S depth => _make_json_safe_within depth item
                             end).
    assert (Hitems : Forall (fun kv : pykey * pyval =>
              (S (nesting (snd kv)) <= depth -> call (snd kv) = _make_json_safe (snd kv))
              /\ (keys_render (snd kv) = true ->
                  (exists j, call (snd kv) = Ok j) \/ call (snd kv) = Err RecursionError)
              /\ (keys_render (snd kv) = true -> depth < S (nesting (snd kv)) ->
                  call (snd kv) = Err RecursionError)
              /\ (keys_render (snd kv) = false -> exists e, call (snd kv) = Err e)) d).
    { eapply Forall_impl; [exact IH|]. intros kv Hkv. apply (sanitize_item depth (snd kv) Hkv). }
    cbn [_make_json_safe_within _make_json_safe nesting keys_render]. fold call.
    split; [|split].
    + intros Hn.
      rewrite (dict_comprehension_ext key_str call _make_json_safe d); [reflexivity|].
      destruct d as [|x d]; [constructor|].
      assert (Hmax : list_max (map (fun kv : pykey * pyval => nesting (snd kv)) (x :: d))
                     <= pred depth) by lia.
      apply list_max_below in Hmax. rewrite Forall_forall in Hmax, Hitems |- *.
      intros kv Hkv. apply (Hitems kv Hkv). specialize (Hmax kv Hkv). cbv beta in Hmax. lia.
    + intros Hk Hn. destruct d as [|x d]; [lia|].
      rewrite forallb_forall in Hk.
      rewrite (dict_comprehension_raises key_str call RecursionError); [reflexivity| |].
      * rewrite Forall_forall in Hitems |- *. intros kv Hkv.
        specialize (Hk kv (proj1 (list_elem_of_In _ _) Hkv)). cbv beta in Hk.
        destruct (key_str (fst kv)) as [ks|]; [|discriminate].
        split; [eauto | apply (Hitems kv Hkv), Hk].
      * destruct depth as [|m].
        -- left. reflexivity.
        -- assert (Hex : Exists (fun kv : pykey * pyval => m < nesting (snd kv)) (x :: d))
             by (apply (list_max_above (fun kv : pykey * pyval => nesting (snd kv))); lia).
           rewrite Exists_exists in Hex |- *. destruct Hex as (kv & Hkv & Hm).
           exists kv. split; [exact Hkv|]. rewrite Forall_forall in Hitems.
           specialize (Hk kv (proj1 (list_elem_of_In _ _) Hkv)). cbv beta in Hk.
           destruct (key_str (fst kv)) as [ks|]; [|discriminate].
           apply (Hitems kv Hkv); [exact Hk | lia].
    + intros Hk. apply forallb_false_Exists in Hk.
      destruct (dict_comprehension_fails key_str call d) with (acc := @nil (string * json))
        as [e He]; [|rewrite He; eauto].
      rewrite Exists_exists in Hk |- *. destruct Hk as (kv & Hkv & Hbad).
      exists kv. split; [exact Hkv|]. cbv beta in Hbad.
      destruct (key_str (fst kv)) as [ks|e]; [right | left; eauto].
      rewrite Forall_forall in Hitems. apply (Hitems kv Hkv), Hbad.
Qed.

(** X15. When the sanitizer raises. On a stack with room for [depth] calls
    of it, one inside the other, [_make_json_safe] answers with a JSON
    value exactly when [str] answers for every dict key inside the value
    and the value is nested no deeper than [depth]; it then answers what it
    answers with all the room it may need. A value all of whose keys
    render and that is nested deeper makes it raise RecursionError. Objects
    whose [str] raises are replaced by a placeholder and never make it
    raise. *)
Theorem sanitizer_answers_iff_keys_render_within_depth (depth : nat) (v : pyval) :
  ((exists j, _make_json_safe_within depth v = Ok j)
   <-> keys_render v = true /\ nesting v <= depth)
  /\ (forall j, _make_json_safe_within depth v = Ok j -> _make_json_safe v = Ok j)
  /\ (keys_render v = true -> depth < nesting v ->
      _make_json_safe_within depth v = Err RecursionError)
  /\ (forall cls r, _make_json_safe_within depth (PObj cls r)
                    = Ok (JStr match r with
                               | Ok s => str_take 150 s
                               | Err _ => "Object of type " +:+ cls
                               end)).
Proof.
  destruct (make_json_safe_within_cases v depth) as (HA & HB & HC).
  assert (Hok : forall j, _make_json_safe_within depth v = Ok j ->
                          keys_render v = true /\ nesting v <= depth).
  { intros j Hj. destruct (keys_render v) eqn:Hk.
    - split; [reflexivity|]. destruct (Nat.le_gt_cases (nesting v) depth) as [Hle|Hgt];
        [exact Hle|]. rewrite (HB eq_refl Hgt) in Hj. discriminate.
    - destruct (HC eq_refl) as [e He]. rewrite He in Hj. discriminate. }
  split; [|split; [|split]].
  - split; [intros [j Hj]; apply (Hok j Hj)|].
    intros [Hk Hn]. rewrite (HA Hn). apply make_json_safe_total, Hk.
  - intros j Hj. destruct (Hok j Hj) as [_ Hn]. rewrite <- (HA Hn). exact Hj.
  - exact HB.
  - intros cls [s|e]; reflexivity.
Qed.

(** ** What [_capture_input] records *)

Lemma arg_key_inj (a b : nat) : "arg_" +:+ pretty a = "arg_" +:+ pretty b -> a = b.
Proof. intros H. apply (String.app_inj "arg_") in H. apply (inj pretty), H. Qed.

Lemma self_not_arg_key (n : nat) : "self" <> "arg_" +:+ pretty n.
Proof.
  change ("arg_" +:+ pretty n) with (String "a" ("rg_" +:+ pretty n)). discriminate.
Qed.

Lemma capture_kwargs_entries (kwargs : list (string * pyval)) :
  forall acc d,
  capture_kwargs kwargs acc = Ok d ->
  NoDup kwargs.*1 ->
  (forall k v, (k, v) ∈ kwargs -> exists j, _make_json_safe v = Ok j /\ dict_get k d = Some j)
  /\ (forall key, key ∉ kwargs.*1 -> dict_get key d = dict_get key acc).
Proof.
  induction kwargs as [|[k v] kwargs IH]; intros acc d Hrun Hnd; cbn [capture_kwargs] in Hrun.
  - injection Hrun as <-. split; [|reflexivity].
    intros k v Hin. apply elem_of_nil in Hin. contradiction.
  - destruct (_make_json_safe v) as [j|] eqn:Hj; [|discriminate]. cbn [rbind] in Hrun.
    cbn in Hnd. apply NoDup_cons in Hnd as [Hk Hnd].
    destruct (IH _ _ Hrun Hnd) as [Hin Hout]. split.
    + intros k' v' Hmem. apply elem_of_cons in Hmem as [[= -> ->]|Hmem].
      * exists j. split; [exact Hj|]. rewrite (Hout k Hk). apply dict_get_set_eq.
      * apply Hin, Hmem.
    + intros key Hkey. cbn in Hkey. apply not_elem_of_cons in Hkey as [Hne Hkey].
      rewrite (Hout key Hkey). apply dict_get_set_ne, Hne.
Qed.

Lemma capture_args_entries (args : list pyval) :
  forall i acc d,
  capture_args i args acc = Ok d ->
  (forall n v, args !! n = Some v ->
     exists j, _make_json_safe v = Ok j /\ dict_get ("arg_" +:+ pretty (i + n)%nat) d = Some j)
  /\ (forall key, (forall n, (n < length args)%nat -> key <> "arg_" +:+ pretty (i + n)%nat) ->
        dict_get key d = dict_get key acc).
Proof.
  induction args as [|a args IH]; intros i acc d Hrun; cbn [capture_args] in Hrun.
  - injection Hrun as <-. split; [|reflexivity]. intros n v Hn. discriminate Hn.
  - destruct (_make_json_safe a) as [j|] eqn:Hj; [|discriminate]. cbn [rbind] in Hrun.
    destruct (IH _ _ _ Hrun) as [Hin Hout]. split.
    + intros [|n] v Hn.
      * injection Hn as <-. exists j. split; [exact Hj|].
        rewrite Nat.add_0_r, Hout; [apply dict_get_set_eq|].
        intros n _ Heq. apply arg_key_inj in Heq. lia.
      * destruct (Hin n v Hn) as (j' & Hj' & Hget). exists j'. split; [exact Hj'|].
        rewrite Nat.add_succ_r. exact Hget.
    + intros key Hkey. rewrite Hout.
      * apply dict_get_set_ne. specialize (Hkey 0%nat). rewrite Nat.add_0_r in Hkey.
        apply Hkey. cbn. lia.
      * intros n Hn. specialize (Hkey (S n)). rewrite Nat.add_succ_r in Hkey.
        apply Hkey. cbn. lia.
Qed.

(** X16. What a successful [_capture_input] holds for a call with a first
    positional argument: every keyword argument under its name, sanitized;
    every further positional argument under [arg_1], [arg_2], ... by its
    position, sanitized, unless a keyword has that very name (the keyword
    is written later and wins); and under [self] the class name of the
    first argument, unless a keyword is called [self]. *)
Theorem captured_input_entries (a0 : pyval) (rest : list pyval)
    (kwargs : list (string * pyval)) (input_data : jdict) :
  _capture_input (a0 :: rest) kwargs = Ok input_data ->
  NoDup kwargs.*1 ->
  (forall k v, (k, v) ∈ kwargs ->
     exists j, _make_json_safe v = Ok j /\ dict_get k input_data = Some j)
  /\ (forall n v, rest !! n = Some v -> "arg_" +:+ pretty (S n) ∉ kwargs.*1 ->
        exists j, _make_json_safe v = Ok j
                  /\ dict_get ("arg_" +:+ pretty (S n)) input_data = Some j)
  /\ ("self" ∉ kwargs.*1 ->
      dict_get "self" input_data = Some (JStr (class_name a0 +:+ " object"))).
Proof.
  unfold _capture_input, hasattr_class. cbn [drop dict_set].
  change (drop 0 rest) with rest.
  destruct (capture_args 1 rest [("self", JStr (class_name a0 +:+ " object"))])
    as [positional|] eqn:Hargs; [|cbn [rbind]; discriminate].
  cbn [rbind]. intros Hkw Hnd.
  destruct (capture_args_entries rest 1 _ _ Hargs) as [Hpos Hother].
  destruct (capture_kwargs_entries kwargs _ _ Hkw Hnd) as [Hin Hout].
  split; [exact Hin|]. split.
  - intros n v Hn Hfree. destruct (Hpos n v Hn) as (j & Hj & Hget).
    exists j. split; [exact Hj|]. rewrite (Hout _ Hfree). exact Hget.
  - intros Hfree. rewrite (Hout _ Hfree), Hother; [reflexivity|].
    intros n _. apply self_not_arg_key.
Qed.

End SanitizerProperties.

(** * Further properties of the dashboard *)

Section DashboardProperties.
Context {F : FloatOps} {E : Environment}.

(** ** Submitting *)



(** ** Routing *)

Lemma startswith_slashes_query (t q : string) :
  startswith "//" (t +:+ "?" +:+ q) = startswith "//" t.
Proof.
  unfold startswith. destruct t as [|a [|b t]].
  - reflexivity.
  - rewrite str_app_cons. cbn [String.prefix]. destruct (ascii_dec "/" a); reflexivity.
  - rewrite !str_app_cons. cbn [String.prefix].
    destruct (ascii_dec "/" a); [|reflexivity]. destruct (ascii_dec "/" b); [|reflexivity].
    destruct (t +:+ "?" +:+ q); destruct t; reflexivity.
Qed.

Lemma cut_at_app (c : ascii) (a b : string) :
  has_char c a = false -> cut_at c (a +:+ b) = a +:+ cut_at c b.
Proof.
  induction a as [|x a IH]; [reflexivity|]. cbn [has_char].
  rewrite str_app_cons. cbn [cut_at].
  destruct (Ascii.eqb c x); [discriminate|]. cbn [orb].
  intros H. rewrite (IH H). reflexivity.
Qed.

Lemma cut_at_here (c : ascii) (b : string) : cut_at c (String c b) = "".
Proof. cbn [cut_at]. rewrite Ascii.eqb_refl. reflexivity. Qed.

Lemma str_app_nil_r (s : string) : s +:+ "" = s.
Proof. induction s as [|c s IH]; [reflexivity|]. rewrite str_app_cons, IH. reflexivity. Qed.

Lemma has_char_app (c : ascii) (a b : string) :
  has_char c (a +:+ b) = has_char c a || has_char c b.
Proof.
  induction a as [|x a IH]; [reflexivity|].
  rewrite str_app_cons. cbn [has_char]. rewrite IH. apply orb_assoc.
Qed.

(** X19. The query string plays no part in routing: a request target in
    origin form (it begins with [/], not with [//]) without [?] and [#] is
    answered the same with any query appended, so
    [GET /api/traces?limit=5] lists and [GET /api/trace/t1?x=1] fetches
    [t1]. *)
Theorem query_string_is_ignored (target query : string) (d : gmap string fcontent) :
  startswith "/" target = true ->
  has_char "?" target = false ->
  has_char "#" target = false ->
  startswith "//" target = false ->
  do_GET (target +:+ "?" +:+ query) d = do_GET target d.
Proof.
  intros _ Hq Hh Hs. unfold do_GET.
  assert (Hpath : urlparse_path (target +:+ "?" +:+ query) = urlparse_path target).
  { unfold urlparse_path. rewrite startswith_slashes_query, Hs.
    rewrite (cut_at_app "#" target _ Hh).
    change ("?" +:+ query) with (String "?" query). cbn [cut_at Ascii.eqb Bool.eqb].
    rewrite (cut_at_app "?" target _ Hq), cut_at_here, str_app_nil_r.
    rewrite (cut_at_absent _ _ Hh), (cut_at_absent _ _ Hq). reflexivity. }
  rewrite Hpath. reflexivity.
Qed.

Lemma cut_params_before_slash (a s : string) :
  cut_params (a +:+ String "/" s) = a +:+ cut_params (String "/" s).
Proof.
  induction a as [|x a IH]; [reflexivity|].
  rewrite !str_app_cons. cbn [cut_params].
  rewrite has_char_app. cbn [has_char Ascii.eqb Bool.eqb]. rewrite orb_true_r, IH.
  reflexivity.
Qed.

Lemma str_split_before_sep (sep : ascii) (a s : string) :
  exists first pieces,
    str_split sep (a +:+ String sep s) = ((first :: pieces) ++ str_split sep s)%list.
Proof.
  induction a as [|x a (first & pieces & IH)].
  - exists "", []. change ("" +:+ String sep s) with (String sep s).
    cbn [str_split]. rewrite Ascii.eqb_refl. reflexivity.
  - rewrite str_app_cons. cbn [str_split]. rewrite IH.
    destruct (Ascii.eqb x sep).
    + exists "", (first :: pieces). reflexivity.
    + exists (String x first), pieces. reflexivity.
Qed.

(** X20. Only the last segment of the path names the trace: whatever
    stands between [/api/trace/] and the last [/] is ignored, so
    [GET /api/trace/any/thing/t1] fetches [t1]. *)
Theorem only_last_segment_names_the_trace (between trace_id : string)
    (d : gmap string fcontent) :
  url_safe trace_id = true ->
  has_char "?" between = false ->
  has_char "#" between = false ->
  do_GET ("/api/trace/" +:+ between +:+ "/" +:+ trace_id) d = _send_single_trace trace_id d.
Proof.
  intros Hsafe Hq Hh. destruct (url_safe_chars _ Hsafe) as (Hslash & Hq' & Hh' & Hsemi).
  change ("/" +:+ trace_id) with (String "/" trace_id).
  assert (Hrest : forall c, has_char c between = false -> has_char c trace_id = false ->
                            Ascii.eqb c "/" = false ->
                            has_char c (between +:+ String "/" trace_id) = false).
  { intros c Hb Ht Hc. rewrite has_char_app. cbn [has_char]. rewrite Hb, Hc, Ht. reflexivity. }
  unfold do_GET.
  assert (Hpath : urlparse_path ("/api/trace/" +:+ between +:+ String "/" trace_id)
                  = "/api/trace/" +:+ between +:+ String "/" trace_id).
  { unfold urlparse_path.
    assert (Hs : startswith "//" ("/api/trace/" +:+ between +:+ String "/" trace_id) = false)
      by reflexivity.
    rewrite Hs.
    rewrite (cut_at_app "#" "/api/trace/" _ eq_refl), (cut_at_absent "#" _ (Hrest "#"%char Hh Hh' eq_refl)).
    rewrite (cut_at_app "?" "/api/trace/" _ eq_refl), (cut_at_absent "?" _ (Hrest "?"%char Hq Hq' eq_refl)).
    rewrite <- str_app_assoc, cut_params_before_slash. cbn [cut_params].
    rewrite Hslash. cbn [Ascii.eqb Bool.eqb]. rewrite (cut_params_absent _ Hsemi).
    reflexivity. }
  rewrite Hpath.
  assert (Hroute : String.eqb ("/api/trace/" +:+ between +:+ String "/" trace_id) "/" = false
                   /\ String.eqb ("/api/trace/" +:+ between +:+ String "/" trace_id)
                        "/api/traces" = false
                   /\ startswith "/api/trace/"
                        ("/api/trace/" +:+ between +:+ String "/" trace_id) = true).
  { cbv [String.append]. fold String.append. cbn. repeat split.
    destruct (between +:+ String "/" trace_id); reflexivity. }
  destruct Hroute as (-> & -> & ->).
  rewrite <- str_app_assoc.
  destruct (str_split_before_sep "/" ("/api/trace/" +:+ between) trace_id)
    as (first & pieces & ->).
  rewrite (str_split_absent _ _ Hslash), last_last. reflexivity.
Qed.

(** ** The order of the listing *)

Lemma ltb_leb (a b : string) : String.ltb a b = true -> String.leb a b = true.
Proof. unfold String.ltb, String.leb. destruct (String.compare a b); congruence. Qed.

Lemma not_ltb_leb (a b : string) : String.ltb a b = false -> String.leb b a = true.
Proof.
  unfold String.ltb, String.leb. rewrite (String.compare_antisym b a).
  destruct (String.compare a b); cbn; congruence.
Qed.

Lemma leb_trans (a b c : string) :
  String.leb a b = true -> String.leb b c = true -> String.leb a c = true.
Proof.
  intros Hab Hbc. apply Is_true_true.
  apply (transitivity (R := String.le) (y := b)); apply Is_true_true; assumption.
Qed.

Lemma insert_by_sorted x sorted :
  string_key start_time_key x ->
  Forall (string_key start_time_key) sorted ->
  StronglySorted (fun a b => newest_first b a) sorted ->
  exists l, insert_by start_time_key x sorted = Ok l
            /\ l ≡ₚ x :: sorted
            /\ StronglySorted (fun a b => newest_first b a) l.
Proof.
  intros [tx Hx] Hall Hsorted.
  induction Hsorted as [|y r Hr IH Hy]; cbn [insert_by].
  - exists [x]. repeat split; repeat constructor.
  - apply Forall_cons in Hall as [[ty Hty] Hall].
    unfold py_lt. rewrite Hx, Hty. cbn [rbind].
    destruct (String.ltb ty tx) eqn:Hlt.
    + destruct (IH Hall) as (l & -> & Hperm & Hl). cbn [rbind].
      exists (y :: l). split; [reflexivity|]. split.
      * rewrite Hperm. apply Permutation_swap.
      * constructor; [exact Hl|]. rewrite Hperm. constructor; [|exact Hy].
        exists tx, ty. repeat split; try assumption. apply ltb_leb, Hlt.
    + exists (x :: y :: r). split; [reflexivity|]. split; [reflexivity|].
      constructor; [constructor; assumption|].
      constructor.
      * exists ty, tx. repeat split; try assumption. apply not_ltb_leb, Hlt.
      * eapply Forall_impl; [exact Hy|]. cbv beta.
        intros z (tz & ty' & Hz & Hy' & Hle). rewrite Hty in Hy'. injection Hy' as <-.
        exists tz, tx. repeat split; try assumption.
        apply (leb_trans tx ty tz); [apply not_ltb_leb, Hlt | exact Hle].
Qed.

Lemma sort_by_sorted l :
  Forall (string_key start_time_key) l ->
  exists l', sort_by start_time_key l = Ok l' /\ l' ≡ₚ l
             /\ StronglySorted (fun a b => newest_first b a) l'.
Proof.
  induction 1 as [|x r Hx Hr IH].
  - exists []. repeat split; constructor.
  - destruct IH as (r' & Hsort & Hperm & Hsorted). cbn [sort_by]. rewrite Hsort. cbn [rbind].
    assert (Hr' : Forall (string_key start_time_key) r') by (rewrite Hperm; exact Hr).
    destruct (insert_by_sorted x r' Hx Hr' Hsorted) as (l & -> & Hl & Hs).
    exists l. repeat split; [|exact Hs]. rewrite Hl, Hperm. reflexivity.
Qed.

Lemma strongly_sorted_snoc {A} (R : relation A) (l : list A) (x : A) :
  StronglySorted R l -> Forall (fun y => R y x) l -> StronglySorted R (l ++ [x]).
Proof.
  induction 1 as [|y l Hl IH Hy]; intros Hall; cbn [app].
  - repeat constructor.
  - apply Forall_cons in Hall as [Hyx Hall]. constructor; [apply IH, Hall|].
    apply Forall_app. split; [exact Hy | repeat constructor; exact Hyx].
Qed.

Lemma strongly_sorted_rev {A} (R : relation A) (l : list A) :
  StronglySorted R l -> StronglySorted (fun a b => R b a) (rev l).
Proof.
  induction 1 as [|x l Hl IH Hx]; cbn [rev]; [constructor|].
  apply strongly_sorted_snoc; [exact IH|].
  apply Forall_forall. intros y Hy. rewrite Forall_forall in Hx. apply Hx.
  apply list_elem_of_In. apply list_elem_of_In in Hy. apply in_rev, Hy.
Qed.

Lemma perm_snd_preimage {A B} (l1 l2 : list B) :
  l1 ≡ₚ l2 -> forall ps : list (A * B), l2 = ps.*2 -> exists ps', ps' ≡ₚ ps /\ l1 = ps'.*2.
Proof.
  induction 1 as [|x l1 l2 Hperm IH|x y l|l1 l2 l3 H12 IH12 H23 IH23]; intros ps Hps.
  - destruct ps; [|discriminate]. exists []. split; reflexivity.
  - destruct ps as [|p ps]; [discriminate|]. cbn in Hps. injection Hps as -> Hps.
    destruct (IH ps Hps) as (ps' & Hp & ->). exists (p :: ps'). split; [|reflexivity].
    rewrite Hp. reflexivity.
  - destruct ps as [|p [|q ps]]; try discriminate. cbn in Hps. injection Hps as -> -> ->.
    exists (q :: p :: ps). split; [apply Permutation_swap | reflexivity].
  - destruct (IH23 ps Hps) as (ps2 & Hp2 & Hl2).
    destruct (IH12 ps2 Hl2) as (ps1 & Hp1 & Hl1).
    exists ps1. split; [rewrite Hp1; exact Hp2 | exact Hl1].
Qed.

Lemma Forall2_fst_snd {A B} (R : A -> B -> Prop) (ps : list (A * B)) :
  Forall (fun p => R p.1 p.2) ps -> Forall2 R ps.*1 ps.*2.
Proof. induction 1; cbn; constructor; assumption. Qed.

(** The loop of [_send_trace_list] with each summary next to the file it
    was read from. *)
Lemma read_files_paired {A B} (g : A -> option B) (l : list A) :
  let ps := omap (fun x => (fun y => (x, y)) <$> g x) l in
  omap g l = ps.*2
  /\ (NoDup l -> NoDup ps.*1)
  /\ (forall x y, (x, y) ∈ ps <-> x ∈ l /\ g x = Some y).
Proof.
  intros ps. subst ps. induction l as [|x l (IH1 & IH2 & IH3)].
  - split; [reflexivity|]. split; [intros _; constructor|].
    intros x y. cbn. rewrite !elem_of_nil. tauto.
  - rewrite !omap_cons_eq. destruct (g x) as [y|] eqn:Hg; cbn [fmap option_fmap option_map].
    + cbn [fmap list_fmap fst snd]. split; [rewrite IH1; reflexivity|]. split.
      * intros Hnd. apply NoDup_cons in Hnd as [Hx Hnd]. apply NoDup_cons. split; [|auto].
        intros Hin. apply list_elem_of_fmap in Hin as ([x' y'] & Hx' & Hin).
        cbn in Hx'. subst x'. apply IH3 in Hin as [Hin _]. contradiction.
      * intros x' y'. rewrite !elem_of_cons, IH3. split.
        -- intros [[= -> ->]|[Hin Hg']]; [split; [left; reflexivity | exact Hg] | tauto].
        -- intros [[->|Hin] Hg'];
             [left; rewrite Hg in Hg'; injection Hg' as ->; reflexivity | right; tauto].
    + split; [exact IH1|]. split.
      * intros Hnd. apply NoDup_cons in Hnd as [_ Hnd]. auto.
      * intros x' y'. rewrite elem_of_cons, IH3. split; [tauto|].
        intros [[->|Hin] Hg']; [congruence | tauto].
Qed.

(** X21. The listing is ordered newest first and holds each readable trace
    file once. For every directory in which the trace files that hold a
    JSON object have a string for [start_time] (or none), the listing
    answers 200; its summaries, in their order, are read from files that
    are pairwise different and are exactly the trace files holding a JSON
    object, one summary for each; and each summary's start time is not less
    than that of every summary after it. *)
Theorem listing_is_newest_first (d : gmap string fcontent) :
  (forall file data, is_trace_file file = true -> d !! file = Some (FJson (JDict data)) ->
     exists t, dict_get_default "start_time" (JStr "") data = JStr t) ->
  exists files summaries,
    _send_trace_list d = JsonResponse 200 (JList (map JDict summaries))
    /\ StronglySorted newest_first summaries
    /\ NoDup files
    /\ (forall file, file ∈ files <->
          is_trace_file file = true /\ exists data, d !! file = Some (FJson (JDict data)))
    /\ Forall2 (fun file s => summary_of_file d file = Some s) files summaries.
Proof.
  intros Hstr.
  set (g := fun file => if is_trace_file file then summary_of_file d file else None).
  set (loop := omap g (listdir d)).
  destruct (read_files_paired g (listdir d)) as (Hloop & Hnd & Hmem).
  set (ps := omap (fun x => (fun y => (x, y)) <$> g x) (listdir d)) in *.
  assert (Hg : forall file s, g file = Some s <->
            is_trace_file file = true /\ summary_of_file d file = Some s).
  { intros file s. subst g. cbv beta. destruct (is_trace_file file); split;
      [tauto | intros [_ H]; exact H | discriminate | intros [H _]; discriminate]. }
  assert (Hsum : forall file, (exists s, summary_of_file d file = Some s) <->
            exists data, d !! file = Some (FJson (JDict data))).
  { intros file. unfold summary_of_file.
    destruct (d !! file) as [[[| | | | |data]|]|]; split; intros [x Hx];
      try discriminate; eauto. }
  assert (Hkeys : Forall (string_key start_time_key) loop).
  { apply Forall_forall. intros s Hs. subst loop. apply list_elem_of_omap in Hs as (file & _ & Hf).
    apply Hg in Hf as [Hfile Hf]. unfold summary_of_file in Hf.
    destruct (d !! file) as [[[| | | | |data]|]|] eqn:Hc; try discriminate.
    injection Hf as <-. destruct (Hstr file data Hfile Hc) as [t Ht].
    exists t. unfold start_time_key. cbn. exact Ht. }
  assert (Hrev : Forall (string_key start_time_key) (rev loop))
    by (rewrite <- Permutation_rev; exact Hkeys).
  destruct (sort_by_sorted (rev loop) Hrev) as (sorted & Hsort & Hperm & Hsorted).
  assert (Hperm' : rev sorted ≡ₚ ps.*2).
  { rewrite <- Permutation_rev, Hperm, <- Permutation_rev. subst loop. rewrite Hloop.
    reflexivity. }
  destruct (perm_snd_preimage _ _ Hperm' ps eq_refl) as (ps' & Hps & Hsummaries).
  exists ps'.*1, (rev sorted). split; [|split; [|split; [|split]]].
  - unfold _send_trace_list, sort_reverse. fold g. fold loop. rewrite Hsort. reflexivity.
  - apply (strongly_sorted_rev _ _ Hsorted).
  - rewrite Hps. apply Hnd, NoDup_fst_map_to_list.
  - intros file. rewrite Hps. split.
    + intros Hin. apply list_elem_of_fmap in Hin as ([file' s] & -> & Hin). cbn [fst].
      apply Hmem in Hin as [_ Hin]. apply Hg in Hin as [Hfile Hs].
      split; [exact Hfile|]. apply Hsum. eauto.
    + intros [Hfile Hdata]. apply Hsum in Hdata as [s Hs].
      apply list_elem_of_fmap. exists (file, s). split; [reflexivity|].
      apply Hmem. split; [|apply Hg; split; assumption].
      unfold listdir. apply list_elem_of_fmap.
      unfold summary_of_file in Hs. destruct (d !! file) as [c|] eqn:Hc; [|discriminate].
      exists (file, c). split; [reflexivity|]. apply elem_of_map_to_list, Hc.
  - rewrite Hsummaries. apply Forall2_fst_snd. apply Forall_forall. intros [file s] Hin.
    cbn [fst snd]. rewrite Hps in Hin. apply Hmem in Hin as [_ Hin]. apply Hg in Hin. tauto.
Qed.

End DashboardProperties.

(** * Properties of the demo pipeline *)

Section SelectorProperties.
Context {F : FloatOps} {E : Environment}.
Context (lower : string -> string) (split : string -> list string).

Lemma remove_duplicates_spec (keywords : list string) :
  forall (seen : gset string) (unique_keywords : list string),
    (forall kw, kw ∈ seen <-> kw ∈ unique_keywords) ->
    NoDup unique_keywords ->
    "" ∉ unique_keywords ->
    exists added,
      remove_duplicates keywords seen unique_keywords = (unique_keywords ++ added)%list
      /\ sublist added keywords
      /\ NoDup (unique_keywords ++ added)%list
      /\ ("" ∉ added)
      /\ (forall kw, kw ∈ keywords -> kw <> "" -> kw ∈ (unique_keywords ++ added)%list).
Proof.
  induction keywords as [|kw keywords IH]; intros seen acc Hseen Hnd Hne; cbn [remove_duplicates].
  - exists []. rewrite app_nil_r. repeat split; try assumption.
    + constructor.
    + apply not_elem_of_nil.
    + intros kw Hin. apply elem_of_nil in Hin. destruct Hin.
  - destruct (String.eqb_spec kw "") as [->|Hkw]; cbn [negb andb].
    + destruct (IH seen acc Hseen Hnd Hne) as (added & -> & Hsub & Hnd' & Hne' & Hall).
      exists added. repeat split; try assumption.
      * apply sublist_cons, Hsub.
      * intros kw Hin Hkw. apply elem_of_cons in Hin as [->|Hin]; [congruence|].
        apply Hall; assumption.
    + case_bool_decide as Hnew.
      * destruct (IH ({[kw]} ∪ seen) (acc ++ [kw])%list) as (added & -> & Hsub & Hnd' & Hne' & Hall).
        { intros x. rewrite elem_of_union, elem_of_singleton, elem_of_app, list_elem_of_singleton, Hseen.
          tauto. }
        { apply NoDup_app. repeat split; [exact Hnd | | apply NoDup_singleton].
          intros x Hx Hx'. apply list_elem_of_singleton in Hx'. subst x.
          apply Hnew, Hseen, Hx. }
        { rewrite elem_of_app, list_elem_of_singleton. intros [H|H]; [exact (Hne H) | congruence]. }
        exists (kw :: added). rewrite <- app_assoc in *. cbn [app] in *.
        repeat split; try assumption.
        -- apply sublist_skip, Hsub.
        -- rewrite not_elem_of_cons. split; [congruence | exact Hne'].
        -- intros x Hin Hx. apply elem_of_cons in Hin as [->|Hin]; [|apply Hall; assumption].
           rewrite elem_of_app, elem_of_cons. right. left. reflexivity.
      * destruct (IH seen acc Hseen Hnd Hne) as (added & -> & Hsub & Hnd' & Hne' & Hall).
        exists added. repeat split; try assumption.
        -- apply sublist_cons, Hsub.
        -- intros x Hin Hx. apply elem_of_cons in Hin as [->|Hin]; [|apply Hall; assumption].
           rewrite elem_of_app. left. apply Hseen. exact Hnew.
Qed.

Lemma candidate_keywords_shape (product_title : string) :
  exists rest, candidate_keywords lower split product_title = product_title :: rest
               /\ length rest <= 2.
Proof.
  unfold candidate_keywords. destruct (key_terms_of _ _); eexists; (split; [reflexivity|]);
    cbn; lia.
Qed.

(** X22. The keywords of [generate_keywords], called with a step open:
    at most three, all different and none empty, every candidate of the
    three strategies that is not empty among them, and the title first
    unless it is empty; the open step gets the reasoning, which tells how
    many keywords there are, and nothing else changes. This holds whatever
    [lower] and [split] answer. *)
Theorem generated_keywords_are_distinct (product_title : string) (w : World) (st : XRayStep) :
  _current_step (xray w) = Some st ->
  exists keywords terms,
    run (generate_keywords lower split product_title) w
    = (with_step w (Some (XRayStep_add_reasoning st
         ("Generated " +:+ pretty (length keywords) +:+ " keywords from title: '"
          +:+ product_title +:+ "'. Extracted key terms: " +:+ terms))),
       Returned (PList (map PStr keywords)))
    /\ NoDup keywords /\ ("" ∉ keywords) /\ length keywords <= 3
    /\ (forall kw, kw ∈ candidate_keywords lower split product_title -> kw <> "" ->
                   kw ∈ keywords)
    /\ (product_title <> "" -> head keywords = Some product_title).
Proof.
  intros Hslot.
  destruct (remove_duplicates_spec (candidate_keywords lower split product_title) ∅ [])
    as (added & Hrun & Hsub & Hnd & Hne & Hall).
  { intros kw. rewrite elem_of_empty, elem_of_nil. tauto. }
  { constructor. }
  { apply not_elem_of_nil. }
  cbn [app] in Hrun, Hnd, Hall.
  exists added. eexists. split; [|repeat split; try assumption].
  - unfold generate_keywords. cbn [run]. unfold add_reasoning. rewrite Hslot, Hrun.
    reflexivity.
  - apply sublist_length in Hsub.
    destruct (candidate_keywords_shape product_title) as (rest & Hshape & Hlen).
    rewrite Hshape in Hsub. cbn [length] in Hsub. lia.
  - intros Htitle.
    destruct (candidate_keywords_shape product_title) as (rest & Hshape & _).
    rewrite Hshape in Hrun. cbn [remove_duplicates] in Hrun.
    destruct (String.eqb_spec product_title "") as [|_]; [contradiction|].
    cbn [negb andb] in Hrun. rewrite bool_decide_eq_true_2 in Hrun by apply not_elem_of_empty.
    destruct (remove_duplicates_spec rest ({[product_title]} ∪ ∅) [product_title])
      as (more & Hrun' & _).
    { intros kw. rewrite elem_of_union, elem_of_singleton, elem_of_empty, list_elem_of_singleton.
      tauto. }
    { apply NoDup_singleton. }
    { rewrite list_elem_of_singleton. congruence. }
    cbn [app] in Hrun, Hrun'. rewrite Hrun' in Hrun. rewrite <- Hrun. reflexivity.
Qed.

Lemma unique_by_id_spec (all_candidates : list Product) :
  forall (seen_ids : gset string) (unique_candidates : list Product),
    (forall i, i ∈ seen_ids <-> i ∈ map p_id unique_candidates) ->
    NoDup (map p_id unique_candidates) ->
    exists added,
      unique_by_id all_candidates seen_ids unique_candidates
      = (unique_candidates ++ added)%list
      /\ sublist added all_candidates
      /\ NoDup (map p_id (unique_candidates ++ added)%list)
      /\ (forall earlier product later,
            all_candidates = (earlier ++ product :: later)%list ->
            p_id product ∉ map p_id earlier -> p_id product ∉ seen_ids ->
            product ∈ added)
      /\ (forall product, product ∈ all_candidates ->
            p_id product ∈ map p_id (unique_candidates ++ added)%list).
Proof.
  induction all_candidates as [|p rest IH]; intros seen acc Hseen Hnd; cbn [unique_by_id].
  - exists []. rewrite app_nil_r. repeat split; try assumption.
    + constructor.
    + intros [|? ?] ? ? Heq; discriminate.
    + intros q Hin. apply elem_of_nil in Hin. destruct Hin.
  - case_bool_decide as Hnew.
    + destruct (IH ({[p_id p]} ∪ seen) (acc ++ [p])%list) as (added & -> & Hsub & Hnd' & Hfirst & Hall).
      { intros i. rewrite map_app. cbn [map].
        rewrite elem_of_union, elem_of_singleton, elem_of_app, list_elem_of_singleton, Hseen. tauto. }
      { rewrite map_app. cbn [map]. apply NoDup_app. repeat split; [exact Hnd | | apply NoDup_singleton].
        intros i Hi Hi'. apply list_elem_of_singleton in Hi'. subst i. apply Hnew, Hseen, Hi. }
      exists (p :: added). rewrite <- app_assoc in *. cbn [app] in *.
      repeat split; try assumption.
      * apply sublist_skip, Hsub.
      * intros [|p' earlier] q later Heq Hbefore Hq; cbn [app] in Heq; injection Heq as <- Heq.
        -- apply elem_of_cons. left. reflexivity.
        -- apply elem_of_cons. right. cbn [map] in Hbefore. apply not_elem_of_cons in Hbefore as [Hne Hbefore].
           apply (Hfirst earlier q later Heq Hbefore).
           rewrite elem_of_union, elem_of_singleton. tauto.
      * intros q Hin. apply elem_of_cons in Hin as [->|Hin]; [|apply Hall, Hin].
        rewrite map_app. cbn [map]. rewrite elem_of_app, elem_of_cons. right. left. reflexivity.
    + destruct (IH seen acc Hseen Hnd) as (added & -> & Hsub & Hnd' & Hfirst & Hall).
      exists added. repeat split; try assumption.
      * apply sublist_cons, Hsub.
      * intros [|p' earlier] q later Heq Hbefore Hq; cbn [app] in Heq; injection Heq as <- Heq.
        -- contradiction.
        -- cbn [map] in Hbefore. apply not_elem_of_cons in Hbefore as [Hne Hbefore].
           apply (Hfirst earlier q later Heq Hbefore Hq).
      * intros q Hin. apply elem_of_cons in Hin as [->|Hin]; [|apply Hall, Hin].
        rewrite map_app, elem_of_app. left. apply Hseen, Hnew.
Qed.

(** X23. The candidates left by "Remove duplicates by ID" in
    [run_pipeline]: they are candidates, in the order they were found; no
    two of them share an id; every candidate's id is still there; and of
    the candidates with one id it is the first that is kept. *)
Theorem unique_candidates_keep_first_of_each_id (all_candidates : list Product) :
  let unique_candidates := unique_by_id all_candidates ∅ [] in
  sublist unique_candidates all_candidates
  /\ NoDup (map p_id unique_candidates)
  /\ (forall product, product ∈ all_candidates ->
        p_id product ∈ map p_id unique_candidates)
  /\ (forall earlier product later,
        all_candidates = (earlier ++ product :: later)%list ->
        p_id product ∉ map p_id earlier -> product ∈ unique_candidates).
Proof.
  intros unique_candidates. subst unique_candidates.
  destruct (unique_by_id_spec all_candidates ∅ []) as (added & -> & Hsub & Hnd & Hfirst & Hall).
  { intros i. cbn [map]. rewrite elem_of_empty, elem_of_nil. tauto. }
  { constructor. }
  cbn [app] in *. repeat split; try assumption.
  intros earlier product later Heq Hbefore.
  apply (Hfirst earlier product later Heq Hbefore), not_elem_of_empty.
Qed.

Lemma end_trace_clears w : tracer_inv w -> current_trace_id (xray (fst (end_trace w))) = None.
Proof.
  intros Hinv. unfold end_trace.
  destruct (active_id (xray w)) as [tid|] eqn:Hact.
  - destruct (active_lookup _ _ Hinv Hact) as [tr ->]. reflexivity.
  - cbn [fst]. destruct (current_trace_id (xray w)) as [t|] eqn:Hcur; [|reflexivity].
    rewrite (current_is_active _ _ Hinv Hcur) in Hact. discriminate.
Qed.

(** X24. [run_pipeline] always ends its trace, and reports the failures
    that [except Exception] catches: from a state of the tracer in which the
    active id, if any, is a non-empty key of the table, whatever the steps in
    [try] do, no trace is active afterwards, and the outcome is what the
    steps returned, or, for an instance of [Exception] raised by the steps,
    the returned dict with [success: False], the message and the id of the
    trace; any other exception of the steps (a [KeyboardInterrupt], a
    [SystemExit]) leaves [run_pipeline] as it came, after [end_trace]. *)
Theorem run_pipeline_reports_and_ends_the_trace (title : string) (steps : string -> prog)
    (w : World) :
  tracer_inv w ->
  let started := start_trace ("CompetitorSelection_" +:+ str_take 30 title) w in
  let trace_id := snd started in
  let after := run_pipeline title steps w in
  snd after
  = match snd (run (steps trace_id) (fst started)) with
    | Returned result => Returned result
    | Raised e =>
        if is_Exception e then Returned (pipeline_error e trace_id) else Raised e
    end
  /\ current_trace_id (xray (fst after)) = None
  /\ tracer_inv (fst after).
Proof.
  intros Hinv started trace_id after.
  pose proof (inv_start_trace ("CompetitorSelection_" +:+ str_take 30 title) w Hinv) as H1.
  subst after. unfold run_pipeline. fold started.
  subst trace_id. fold started in H1. destruct started as [w1 tid]. cbn [fst snd] in *.
  pose proof (inv_run (steps tid) w1 H1) as H2.
  assert (Hend : forall (pending : outcome pyval) w2, tracer_inv w2 ->
            let r := match end_trace w2 with
                     | (w3, Raised e) => (w3, Raised e)
                     | (w3, Returned _) => (w3, pending)
                     end in
            snd r = pending /\ current_trace_id (xray (fst r)) = None /\ tracer_inv (fst r)).
  { intros pending w2 Hw2.
    pose proof (end_trace_returns w2 Hw2) as Hret.
    pose proof (end_trace_clears w2 Hw2) as Hclear.
    pose proof (inv_end_trace w2 Hw2) as Hinv3.
    destruct (end_trace w2) as [w3 [saved|e]]; cbn [fst snd] in *; [|discriminate].
    split; [reflexivity|]. split; assumption. }
  destruct (run (steps tid) w1) as [w2 [result|e]]; cbn [fst snd] in *;
    [|destruct (is_Exception e)]; apply Hend, H2.
Qed.

(** X25. The trace of a pipeline run is on disk afterwards, also when a
    step failed or the steps were interrupted: if the trace that
    [run_pipeline] started is still the active one when the steps are over,
    its file can be opened and [json.dump] writes the finalized trace to its
    end, then the file holds the trace as the steps left it, finalized, and
    the dashboard answers a request for it with that record. *)
Theorem run_pipeline_saves_its_trace (title : string) (steps : string -> prog)
    (w w1 : World) (r : outcome pyval) (trace : Trace) :
  let started := start_trace ("CompetitorSelection_" +:+ str_take 30 title) w in
  let trace_id := snd started in
  run (steps trace_id) (fst started) = (w1, r) ->
  active_id (xray w1) = Some trace_id ->
  traces (xray w1) !! trace_id = Some trace ->
  can_write (trace_file trace_id) = true ->
  json_dump_ok (trace_json (finalize trace (datetime_now_isoformat (ticks w1)))) = true ->
  let d := disk (fst (run_pipeline title steps w)) in
  let record := trace_json (finalize trace (datetime_now_isoformat (ticks w1))) in
  d !! trace_file trace_id = Some (FJson record)
  /\ _send_single_trace trace_id d = JsonResponse 200 record.
Proof.
  intros started trace_id Hrun Hact Htr Hw Hdump d record.
  assert (Hd : d !! trace_file trace_id = Some (FJson record)).
  { subst d. unfold run_pipeline. fold started.
    subst trace_id. destruct started as [w0 tid]. cbn [fst snd] in *. rewrite Hrun.
    assert (Hend : end_trace w1
                   = (fst (end_trace w1), Returned (Some tid))).
    { destruct (end_trace_active w1 tid trace Hact Htr) as (Hret & _).
      destruct (end_trace w1) as [w3 o]. cbn [fst snd] in *. rewrite Hret. reflexivity. }
    assert (Hdisk : disk (fst (end_trace w1)) !! trace_file tid = Some (FJson record)).
    { unfold end_trace. rewrite Hact, Htr. cbn [fst disk with_xray].
      unfold _save_to_file. cbn [xray traces tick with_traces with_xray].
      rewrite lookup_insert_eq, Hw, Hdump. apply lookup_insert_eq. }
    destruct r as [result|e]; [|destruct (is_Exception e)];
      rewrite Hend; cbn [fst]; exact Hdisk. }
  split; [exact Hd|].
  unfold _send_single_trace. fold (trace_file trace_id). rewrite Hd. reflexivity.
Qed.

End SelectorProperties.

(** * The theorems at work on concrete inputs *)

#[local] Existing Instance demo_floats.
#[local] Existing Instance demo_env.


Lemma add_reasoning_closed_step_always_joins_witness :
  let w := fst (add_reasoning "why" demo_world) in
  (tr_steps <$> traces (xray w) !! "t")
  = Some [demo_step "Search Products" 12;
          set_sd_reasoning (demo_step "Rank Products" 30) (Some (newline +:+ "why"))].
Proof.
  cbv zeta.
  rewrite (add_reasoning_closed_step_always_joins demo_world "t"
             demo_trace [demo_step "Search Products" 12] (demo_step "Rank Products" 30)
             "" "why" eq_refl eq_refl eq_refl eq_refl eq_refl).
  vm_compute. reflexivity.
Defined.



Lemma list_skips_unreadable_record_witness :
  exists summaries,
    _send_trace_list (store_with "trace_broken.json" FBad demo_records)
    = JsonResponse 200 (JList (map JDict summaries))
    /\ length summaries = 2%nat
    /\ summaries ≡ₚ map expected_summary demo_records
    /\ (forall s, s ∈ summaries ->
          exists t, t ∈ demo_records
                    /\ forall key, key ∈ summary_keys -> dict_get key s = dict_get key t).
Proof.
  apply (list_skips_unreadable_record demo_records "trace_broken.json" FBad).
  - repeat constructor.
  - refine (bool_decide_unpack _ _). vm_compute. exact I.
  - reflexivity.
  - refine (bool_decide_unpack _ _). vm_compute. exact I.
Defined.

(** The demo pipeline of the repository in small: a trace with one
    instrumented step that explains itself, ended and saved. *)
Lemma current_trace_id_in_table_witness :
  let p := StartTrace "demo" (fun _ =>
           Traced "Search Products" "search"
             (fun _ _ => AddReasoning "found 3" (Return (PNum (NInt 3))))
             [PStr "bottle"] [] (fun _ =>
           EndTrace (fun _ => Return PNone))) in
  let w := fst (run p (init_world ∅)) in
  current_trace_id (xray w) = None /\ key_errors w = [].
Proof.
  intros p w.
  destruct (current_trace_id_in_table ∅ p) as (_ & Herr & _).
  split; [vm_compute; reflexivity | exact Herr].
Defined.

(** ** The further properties on concrete inputs *)

Lemma other_files_untouched_witness :
  let p := StartTrace "demo" (fun _ =>
           Traced "Search Products" "search"
             (fun _ _ => AddReasoning "found 3" (Return (PNum (NInt 3))))
             [PStr "bottle"] [] (fun _ =>
           EndTrace (fun _ => Return PNone))) in
  let w := init_world {[ "notes.txt" := FBad ]} in
  disk (fst (run p w)) !! "notes.txt" = disk w !! "notes.txt".
Proof.
  intros p w. exact (other_files_untouched p w "notes.txt" eq_refl).
Defined.

Lemma wrapper_records_success_of_plain_witness :
  let after := wrapper "Search Products" "search"
                 (run (AddReasoning "found 3" (Return (PNum (NInt 3)))))
                 [PStr "bottle"] [] demo_world in
  snd after = Returned (PNum (NInt 3)) /\ _current_step (xray (fst after)) = None.
Proof.
  intros after.
  destruct (wrapper_records_success_of_plain "Search Products" "search"
              (fun _ _ => AddReasoning "found 3" (Return (PNum (NInt 3))))
              [PStr "bottle"] [] [("self", JStr "str object")] demo_world
              _ (PNum (NInt 3)) (JNum (NInt 3)) "t" demo_trace
              eq_refl (plain_AddReasoning _ _ (plain_Return _)) eq_refl eq_refl eq_refl eq_refl)
    as (Hret & Hslot & _).
  split; [exact Hret | exact Hslot].
Defined.

Lemma reasoning_inside_call_is_recorded_witness :
  let after := run (Traced "Search Products" "search"
                      (fun _ _ => AddReasoning "found 3" (Return (PNum (NInt 3))))
                      [PStr "bottle"] [] Return) demo_world in
  snd after = Returned (PNum (NInt 3))
  /\ exists d, traces (xray (fst after)) !! "t" = Some (append_step demo_trace d)
               /\ sd_reasoning d = Some "found 3"
               /\ sd_input d = [("self", JStr "str object")]
               /\ sd_output d = [("result", JNum (NInt 3))]
               /\ sd_success d = true.
Proof.
  exact (reasoning_inside_call_is_recorded "Search Products" "search" [PStr "bottle"] []
           [("self", JStr "str object")] demo_world "found 3" (PNum (NInt 3)) (JNum (NInt 3))
           "t" demo_trace eq_refl eq_refl eq_refl eq_refl).
Defined.


Lemma capture_failure_skips_the_call_witness :
  let bad := PDict [(KObj "Key" (Err (Exn "ValueError" "no text")), PNone)] in
  let after := wrapper "Search Products" "search" (fun w => (w, Returned PNone))
                 [PNone; bad] [] demo_world in
  snd after = Raised (Exn "ValueError" "no text")
  /\ traces (xray (fst after)) = traces (xray demo_world).
Proof.
  intros bad after.
  destruct (capture_failure_skips_the_call "Search Products" "search"
              (fun w => (w, Returned PNone)) [PNone; bad] [] demo_world
              (Exn "ValueError" "no text") "why" eq_refl)
    as (Hret & Htab & _).
  split; [exact Hret | exact Htab].
Defined.

Lemma second_start_orphans_first_witness :
  let w1 := fst (start_trace "first" (init_world ∅)) in
  let w2 := fst (start_trace "second" w1) in
  snd (end_trace w2) = Returned (Some "trace_3_00000004")
  /\ active_id (xray (fst (end_trace w2))) = None.
Proof.
  intros w1 w2.
  destruct (second_start_orphans_first "first" "second" (init_world ∅)) as (Hret & Hact & _).
  - intros Heq. vm_compute in Heq. discriminate Heq.
  - split; [exact Hret | exact Hact].
Defined.

Lemma end_trace_twice_witness :
  end_trace (fst (end_trace demo_world)) = (fst (end_trace demo_world), Returned None).
Proof.
  apply (end_trace_twice demo_world).
  intros tid Hact. vm_compute in Hact. injection Hact as <-.
  exists demo_trace. reflexivity.
Defined.

Lemma ended_trace_can_be_fetched_witness :
  let d := disk (fst (end_trace demo_world)) in
  let record := trace_json (finalize demo_trace (datetime_now_isoformat (ticks demo_world))) in
  _send_single_trace "t" d = JsonResponse 200 record
  /\ (url_safe "t" = true -> do_GET ("/api/trace/" +:+ "t") d = JsonResponse 200 record).
Proof.
  exact (proj1 (ended_trace_can_be_fetched demo_world "t" demo_trace eq_refl eq_refl eq_refl)
           eq_refl).
Defined.

Lemma ended_trace_is_listed_witness :
  summary_of_file (disk (fst (end_trace demo_world))) "trace_t.json"
  = Some [("id", JStr "t"); ("name", JStr "demo"); ("start_time", JStr "2024-01-01T00:00:00");
          ("total_steps", JNum (NInt 2)); ("total_duration_ms", JNum (NFloat 42%Z))].
Proof.
  exact (proj1 (proj2 (ended_trace_is_listed demo_world "t" demo_trace
                         eq_refl eq_refl eq_refl eq_refl))).
Defined.

(** The keys [1] and ["1"] render alike: one entry is left. *)
Lemma sanitized_dict_keys_witness :
  exists jd, JDict [("1", JBool true)] = JDict jd
             /\ NoDup jd.*1
             /\ (length jd <= 2)%nat
             /\ (forall key, key ∈ jd.*1 <->
                   exists k v, (k, v) ∈ [(KNum (NInt 1), PNone); (KStr "1", PBool true)]
                               /\ key_str k = Ok key).
Proof.
  exact (sanitized_dict_keys [(KNum (NInt 1), PNone); (KStr "1", PBool true)]
           (JDict [("1", JBool true)]) eq_refl).
Defined.

Lemma captured_input_entries_witness :
  dict_get "limit" [("self", JStr "NoneType object"); ("arg_1", JStr "bottle");
                    ("limit", JNum (NInt 5))]
  = Some (JNum (NInt 5)).
Proof.
  destruct (captured_input_entries PNone [PStr "bottle"] [("limit", PNum (NInt 5))]
              [("self", JStr "NoneType object"); ("arg_1", JStr "bottle");
               ("limit", JNum (NInt 5))] eq_refl) as (Hkw & _).
  - apply NoDup_singleton.
  - destruct (Hkw "limit" (PNum (NInt 5))) as (j & Hj & Hget).
    + apply list_elem_of_singleton. reflexivity.
    + rewrite Hget. cbn in Hj. congruence.
Defined.


Lemma query_string_is_ignored_witness :
  let d := store_with "trace_broken.json" FBad demo_records in
  do_GET ("/api/traces" +:+ "?" +:+ "limit=5") d = do_GET "/api/traces" d.
Proof.
  intros d.
  exact (query_string_is_ignored "/api/traces" "limit=5" d eq_refl eq_refl eq_refl eq_refl).
Defined.

Lemma only_last_segment_names_the_trace_witness :
  let d := store_with "trace_broken.json" FBad demo_records in
  do_GET ("/api/trace/" +:+ "any/thing" +:+ "/" +:+ "t1") d = _send_single_trace "t1" d.
Proof.
  intros d.
  exact (only_last_segment_names_the_trace "any/thing" "t1" d eq_refl eq_refl eq_refl).
Defined.

(** Two trace files and a file that does not parse: the newer trace is
    listed first. *)
Lemma listing_is_newest_first_witness :
  let older := [("id", JStr "t1"); ("start_time", JStr "2024-01-01T10:00:00")] in
  let newer := [("id", JStr "t2"); ("start_time", JStr "2024-01-02T10:00:00")] in
  let d := <["trace_t1.json" := FJson (JDict older)]>
             (<["trace_t2.json" := FJson (JDict newer)]>
                ({["trace_broken.json" := FBad]})) in
  exists files summaries,
    _send_trace_list d = JsonResponse 200 (JList (map JDict summaries))
    /\ StronglySorted newest_first summaries
    /\ NoDup files
    /\ (forall file, file ∈ files <->
          is_trace_file file = true /\ exists data, d !! file = Some (FJson (JDict data)))
    /\ Forall2 (fun file s => summary_of_file d file = Some s) files summaries.
Proof.
  intros older newer d. apply (listing_is_newest_first d).
  intros file data _ Hd. subst d.
  apply lookup_insert_Some in Hd as [[_ Hd]|[_ Hd]].
  - injection Hd as <-. exists "2024-01-01T10:00:00". reflexivity.
  - apply lookup_insert_Some in Hd as [[_ Hd]|[_ Hd]].
    + injection Hd as <-. exists "2024-01-02T10:00:00". reflexivity.
    + apply lookup_singleton_Some in Hd as [_ Hd]. discriminate Hd.
Defined.

Lemma generated_keywords_are_distinct_witness :
  let w := with_step demo_world (Some (XRayStep_init "Generate Search Keywords" "llm" 0)) in
  exists keywords terms,
    run (generate_keywords (fun s => s) (str_split " ") "water bottle") w
    = (with_step w (Some (XRayStep_add_reasoning
                            (XRayStep_init "Generate Search Keywords" "llm" 0)
         ("Generated " +:+ pretty (length keywords) +:+ " keywords from title: '"
          +:+ "water bottle" +:+ "'. Extracted key terms: " +:+ terms))),
       Returned (PList (map PStr keywords)))
    /\ NoDup keywords /\ ("" ∉ keywords) /\ length keywords <= 3
    /\ (forall kw, kw ∈ candidate_keywords (fun s => s) (str_split " ") "water bottle" ->
                   kw <> "" -> kw ∈ keywords)
    /\ ("water bottle" <> "" -> head keywords = Some "water bottle").
Proof.
  intros w.
  exact (generated_keywords_are_distinct (fun s => s) (str_split " ") "water bottle" w
           (XRayStep_init "Generate Search Keywords" "llm" 0) eq_refl).
Defined.

Lemma run_pipeline_reports_and_ends_the_trace_witness :
  let after := run_pipeline "Water Bottle" (fun _ => Raise (Exn "Exception" "boom"))
                 (init_world ∅) in
  snd after = Returned (pipeline_error (Exn "Exception" "boom") "trace_0_00000001")
  /\ current_trace_id (xray (fst after)) = None.
Proof.
  intros after.
  destruct (run_pipeline_reports_and_ends_the_trace "Water Bottle"
              (fun _ => Raise (Exn "Exception" "boom")) (init_world ∅))
    as (Hret & Hcur & _).
  - split; [exact I | reflexivity].
  - split; [exact Hret | exact Hcur].
Defined.

(** A pipeline whose only step fails: the trace is saved with the failed
    step in it. *)
Lemma run_pipeline_saves_its_trace_witness :
  let steps := fun _ : string =>
    Traced "Search Products" "search" (fun _ _ => Raise (Exn "Exception" "boom"))
      [PStr "bottle"] [] Return in
  let trace_id :=
    snd (start_trace ("CompetitorSelection_" +:+ str_take 30 "Water Bottle") (init_world ∅)) in
  let d := disk (fst (run_pipeline "Water Bottle" steps (init_world ∅))) in
  exists record,
    d !! trace_file trace_id = Some (FJson record)
    /\ _send_single_trace trace_id d = JsonResponse 200 record.
Proof.
  intros steps trace_id d.
  set (started := start_trace ("CompetitorSelection_" +:+ str_take 30 "Water Bottle")
                    (init_world ∅)) in *.
  destruct (run (steps trace_id) (fst started)) as [w1 r] eqn:Hrun.
  assert (Hw1 : w1 = fst (run (steps trace_id) (fst started))) by (rewrite Hrun; reflexivity).
  assert (Hact : active_id (xray w1) = Some trace_id)
    by (rewrite Hw1; vm_compute; reflexivity).
  destruct (traces (xray w1) !! trace_id) as [trace|] eqn:Htr.
  - assert (Hdump : json_dump_ok
                      (trace_json (finalize trace (datetime_now_isoformat (ticks w1)))) = true).
    { pose proof Htr as Htr'. rewrite Hw1 in Htr' |- *. vm_compute in Htr'.
      injection Htr' as <-. vm_compute. reflexivity. }
    eexists.
    exact (run_pipeline_saves_its_trace "Water Bottle" steps (init_world ∅) w1 r trace
             Hrun Hact Htr eq_refl Hdump).
  - exfalso. rewrite Hw1 in Htr. vm_compute in Htr. discriminate Htr.
Defined.

(** ** The departures, run from the initial state *)

(** Two remarks inside one step: the second replaces the first. *)
Example reasoning_overwritten_inside_step :
  recorded_steps (fst (run_demo
    (StartTrace "demo" (fun _ =>
     Traced "Step A" "x" (fun _ _ =>
       AddReasoning "a" (AddReasoning "b" (Return (PNum (NInt 42))))) [] [] Return))))
  = [("Step A", true, None, Some "b")].
Proof. vm_compute. reflexivity. Qed.

(** A remark after a step that attached none starts with a line break. *)
Example reasoning_after_step_starts_with_newline :
  recorded_steps (fst (run_demo
    (StartTrace "demo" (fun _ =>
     Traced "Step A" "x" (fun _ _ => Return (PNum (NInt 42))) [] [] (fun _ =>
     AddReasoning "why" (Return PNone))))))
  = [("Step A", true, None, Some (newline +:+ "why"))].
Proof. vm_compute. reflexivity. Qed.

(** An instrumented function that fails with [boom] and is not nested: the
    failure is recorded and [boom] reaches the caller. *)
Example failure_recorded_without_nesting :
  let after := run_demo
    (StartTrace "demo" (fun _ =>
     Traced "Step A" "x" (fun _ _ => Raise (Exn "Exception" "boom")) [] [] Return)) in
  snd after = Raised (Exn "Exception" "boom")
  /\ recorded_steps (fst after) = [("Step A", false, Some "boom", Some "")].
Proof. vm_compute. split; reflexivity. Qed.

(** The same function calling an instrumented helper first: only the
    helper's step is recorded and the caller gets AttributeError. *)
Example failure_lost_with_nesting :
  let after := run_demo
    (StartTrace "demo" (fun _ =>
     Traced "Step A" "x" (fun _ _ =>
       Traced "inner" "y" (fun _ _ => Return (PNum (NInt 1))) [] [] (fun _ =>
       Raise (Exn "Exception" "boom"))) [] [] Return)) in
  snd after = Raised (AttributeError "end")
  /\ recorded_steps (fst after) = [("inner", true, None, Some "")].
Proof. vm_compute. split; reflexivity. Qed.

(** Two traces one after the other, each with one step returning 42. *)
Example two_traces_back_to_back :
  let cycle (k : @prog demo_floats) :=
    StartTrace "run" (fun _ =>
    Traced "Step A" "x" (fun _ _ => Return (PNum (NInt 42))) [] [] (fun _ =>
    EndTrace (fun _ => k))) in
  let after := run_demo (cycle (cycle (Return PNone))) in
  map (fun file : string * @fcontent demo_floats =>
         match snd file with
         | FJson (JDict record) =>
             (dict_get "total_steps" record,
              match dict_get "steps" record with
              | Some (JList [JDict step]) => dict_get "output" step
              | _ => None
              end)
         | _ => (None, None)
         end)
      (map_to_list (disk (fst after)))
  = [(Some (JNum (NInt 1)), Some (JDict [("result", JNum (NInt 42))]));
     (Some (JNum (NInt 1)), Some (JDict [("result", JNum (NInt 42))]))].
Proof. vm_compute. reflexivity. Qed.

(** A step left by [KeyboardInterrupt]: [except Exception] lets it pass,
    [finally] records the step as it stands, a success without output, and
    the interrupt reaches the caller. *)
Example interrupted_step_recorded_as_success :
  let after := run_demo
    (StartTrace "demo" (fun _ =>
     Traced "Step A" "x" (fun _ _ => Raise (BaseExn "KeyboardInterrupt" "")) [] [] Return)) in
  snd after = Raised (BaseExn "KeyboardInterrupt" "")
  /\ recorded_steps (fst after) = [("Step A", true, None, Some "")]
  /\ flat_map (fun entry : string * @Trace demo_floats => map sd_output (tr_steps (snd entry)))
       (map_to_list (traces (xray (fst after)))) = [[]].
Proof. vm_compute. repeat split. Qed.

(** The demo pipeline interrupted inside its steps: the trace is ended and
    the interrupt leaves [run_pipeline]; a failure of the steps is
    returned as a dict. *)
Example interrupted_pipeline_raises :
  let interrupted := run_pipeline "Water Bottle"
                       (fun _ => Raise (BaseExn "KeyboardInterrupt" "")) (init_world ∅) in
  let failed := run_pipeline "Water Bottle"
                  (fun _ => Raise (Exn "ValueError" "boom")) (init_world ∅) in
  snd interrupted = Raised (BaseExn "KeyboardInterrupt" "")
  /\ current_trace_id (xray (fst interrupted)) = None
  /\ snd failed = Returned (PDict [(KStr "success", PBool false);
                                   (KStr "error", PStr "boom");
                                   (KStr "trace_id", PStr "trace_0_00000001")]).
Proof. vm_compute. repeat split. Qed.

(** A step that returns an integer of 4301 digits: the sanitizer keeps it,
    [json.dump] raises on it with the file already opened, and the trace
    file that is left can neither be listed nor fetched. *)
Example long_integer_leaves_unreadable_file :
  let after := run_demo
    (StartTrace "demo" (fun _ =>
     Traced "Step A" "x" (fun _ _ => Return (PNum (NInt int_str_bound))) [] [] (fun _ =>
     EndTrace (fun _ => Return PNone)))) in
  snd after = Returned PNone
  /\ map_to_list (disk (fst after)) = [("trace_trace_0_00000001.json", FBad)]
  /\ _send_trace_list (disk (fst after)) = JsonResponse 200 (JList [])
  /\ _send_single_trace "trace_0_00000001" (disk (fst after)) = Uncaught.
Proof. vm_compute. repeat split. Qed.

(** Three lists, one inside the other, on a stack with room for one call
    below the first. *)
Example nesting_beyond_the_stack :
  nesting (PList [PList [PList []]]) = 2
  /\ _make_json_safe_within 1 (PList [PList [PList []]]) = Err RecursionError
  /\ _make_json_safe_within 2 (PList [PList [PList []]]) = Ok (JList [JList [JList []]])
  /\ _make_json_safe (PList [PList [PList []]]) = Ok (JList [JList [JList []]]).
Proof. repeat split. Qed.
